(** * matador: a shallow embedding of selected routines

    The routines embedded here come from the matador materials toolkit:
    console rendering of stoichiometries ([print_utils.stoich2tex]), the
    argument validation of the database refiner ([refine.Refiner.__init__]),
    the importer's quality score ([spatula.Spatula.struct2db]), the restart
    schedule of the relaxer ([compute.FullRelaxer.__init__]), the error
    collection of the batch scheduler ([batch.BatchRun.spawn]), the job
    folder reset ([batch.reset_job_folder]), the per-B normalisation and
    the binary voltage curve of the hull engine ([hull.QueryConvexHull]) and
    the k-point spacing estimate ([cell_utils.calc_mp_spacing]).

    Python values are modelled as follows: [str] as [string], [int] as [Z],
    [dict] with string keys as [gmap string _], [list] as [list], [None] as
    [option]. An exception that leaves a routine is an explicit result.
    Floating-point values are rationals or reals; where a routine rounds
    them ([calc_mp_spacing]), the rounding error is part of the model. *)

From stdpp Require Import gmap strings list fin_maps pretty sorting.
From Stdlib Require Import ZArith QArith Lia Ascii Orders Sorted Mergesort.
From Stdlib Require Import Reals Lra.

Set Warnings "-clear-no-such-hyp,-level-tolerance".

Open Scope Z_scope.

(** ** Python builtins used by the embedded code *)

Module Py.

(** [sub in s] for strings. *)
Fixpoint contains (sub s : string) : bool :=
  String.prefix sub s ||
  match s with
  | EmptyString => false
  | String _ s' => contains sub s'
  end.

(** [str.upper] and [str.lower] on the ASCII letters. *)
Definition upper_ascii (c : ascii) : ascii :=
  let n := nat_of_ascii c in
  if (Nat.leb 97 n && Nat.leb n 122)%bool then ascii_of_nat (n - 32) else c.

Definition lower_ascii (c : ascii) : ascii :=
  let n := nat_of_ascii c in
  if (Nat.leb 65 n && Nat.leb n 90)%bool then ascii_of_nat (n + 32) else c.

Fixpoint upper (s : string) : string :=
  match s with
  | EmptyString => EmptyString
  | String c s' => String (upper_ascii c) (upper s')
  end.

Fixpoint lower (s : string) : string :=
  match s with
  | EmptyString => EmptyString
  | String c s' => String (lower_ascii c) (lower s')
  end.

(** [''.join(l)]. *)
Definition join (sep : string) (l : list string) : string := String.concat sep l.

(** The magnitude of [float(n)] for a non-negative [int] [n]: the integer
    rounded to 53 significant bits, ties to even. *)
Definition round_to_53 (a : Z) : Z :=
  let k := Z.log2 a + 1 in
  if k <=? 53 then a
  else
    let sh := k - 53 in
    let q := Z.shiftr a sh in
    let r := Z.land a (Z.ones sh) in
    let half := Z.shiftl 1 (sh - 1) in
    let q' := if (half <? r) || ((r =? half) && Z.odd q) then q + 1 else q in
    Z.shiftl q' sh.

(** [float(n)] for an [int]: its (integral) value, or [None] for the
    [OverflowError] of an [int] too large for a double. *)
Definition float_of_int (n : Z) : option Z :=
  let v := Z.sgn n * round_to_53 (Z.abs n) in
  if 2 ^ 1024 <=? Z.abs v then None else Some v.

(** [l[i]] with Python's negative indices; [None] is [IndexError]. *)
Definition index {A} (l : list A) (i : Z) : option A :=
  let n := Z.of_nat (length l) in
  if i <? 0 then (if 0 <=? n + i then l !! Z.to_nat (n + i) else None)
  else l !! Z.to_nat i.

(** [l[i] = v] with Python's negative indices; [None] is [IndexError]. *)
Definition setitem {A} (l : list A) (i : Z) (v : A) : option (list A) :=
  let n := Z.of_nat (length l) in
  let j := if i <? 0 then n + i else i in
  if (0 <=? j) && (j <? n) then Some (<[Z.to_nat j := v]> l) else None.

End Py.

(** ** matador/utils/print_utils.py *)

Module PrintUtils.

(** A count of a stoichiometry: a Python [int], or a finite [float] given
    by its value. *)
Inductive number :=
| Int (n : Z)
| Float (x : Q).

(** [count > 0] and [count != 1]. *)
Definition positive (count : number) : bool :=
  match count with
  | Int n => 0 <? n
  | Float x => negb (Qle_bool x 0)
  end.

Definition is_one (count : number) : bool :=
  match count with
  | Int n => n =? 1
  | Float x => Qeq_bool x 1
  end.

(** [float(count).is_integer()]; [None] is the [OverflowError] of
    [float(count)] for an [int] too large for a double. *)
Definition is_integer (count : number) : option bool :=
  match count with
  | Int n => _ ← Py.float_of_int n; Some true
  | Float x => Some (Z.pos (Qden (Qred x)) =? 1)
  end.

(** [int(count)]: the count itself for an [int], the value cut towards
    zero for a [float]. *)
Definition int (count : number) : Z :=
  match count with
  | Int n => n
  | Float x => Z.quot (Qnum x) (Z.pos (Qden x))
  end.

Section Format.

(** How an f-string shows a [float] that is no integer (its [repr]). *)
Variable repr_float : Q → string.

(** [f"{count}"]. *)
Definition format (count : number) : string :=
  match count with
  | Int n => pretty n
  | Float x => repr_float x
  end.

(** The count as it is shown: [int(count)] when [float(count)] is an
    integer. *)
Definition shown (count : number) : string :=
  match is_integer count with
  | Some true => format (Int (int count))
  | _ => format count
  end.

(** One turn of the loop of [stoich2tex] over a [(symbol, count)] pair. *)
Definition stoich2tex_step (list_tex : list string) (p : string * number)
  : option (list string) :=
  let '(symbol, count) := p in
  let list_tex := if positive count then list_tex ++ [symbol] else list_tex in
  if negb (is_one count) then
    integral ← is_integer count;
    let count := if integral : bool then Int (int count) else count in
    Some (list_tex ++ ["_{" +:+ format count +:+ "}"])
  else Some list_tex.

Fixpoint stoich2tex_loop (s : list (string * number)) (list_tex : list string)
  : option (list string) :=
  match s with
  | [] => Some list_tex
  | p :: s' => list_tex' ← stoich2tex_step list_tex p; stoich2tex_loop s' list_tex'
  end.

(** [stoich2tex(s)]; [None] is the [OverflowError] of [float(count)]. *)
Definition stoich2tex (s : list (string * number)) : option string :=
  list_tex ← stoich2tex_loop s [];
  Some ("$" +:+ Py.join "" list_tex +:+ "$").

(** What one pair contributes to the rendered string. *)
Definition tex_of_pair (p : string * number) : string :=
  (if positive p.2 then p.1 else "") +:+
  (if is_one p.2 then "" else "_{" +:+ shown p.2 +:+ "}").

(** The entries one pair appends to [list_tex]. *)
Definition entries_of_pair (p : string * number) : list string :=
  (if positive p.2 then [p.1] else []) ++
  (if is_one p.2 then [] else ["_{" +:+ shown p.2 +:+ "}"]).

End Format.

(** A count that [float()] takes: every [float], and the [int]s within
    the range of a double. *)
Definition convertible (count : number) : Prop :=
  match count with
  | Int n => is_Some (Py.float_of_int n)
  | Float _ => True
  end.

End PrintUtils.

(** ** matador/refine.py *)

Module Refine.

Definition possible_tasks : list string :=
  ["sym"; "spg"; "substruc"; "sub"; "ratios"; "remove"].

Definition possible_modes : list string := ["display"; "overwrite"; "set"].

(** How the argument checks of [Refiner.__init__] end: [Exit] is the
    [SystemExit] raised by [sys.exit(msg)]; [Validated] carries the mode and
    the task the constructor goes on with and the lines printed so far. *)
Inductive init_result :=
| Exit (msg : string)
| Validated (mode task : string) (printed : list string).

Definition dquote : string := String (ascii_of_nat 34) EmptyString.

(** The argument checks that open [Refiner.__init__(cursor, collection,
    task, mode)]; [collection] and [task] are [None] when not given. *)
Definition Refiner_init {Coll : Type} (collection : option Coll)
    (task : option string) (mode : string) : init_result :=
  let '(mode, printed) :=
    if bool_decide (mode ∈ possible_modes) then (mode, [])
    else ("display",
          ["Mode not understood, defaulting to " +:+ dquote +:+ "display"
             +:+ dquote +:+ "."]) in
  if negb (bool_decide (is_Some collection))
     && bool_decide (mode ∈ ["overwrite"; "set"])
  then Exit "Impossible to overwite or set without db collection, exiting..."
  else
    match task with
    | None => Exit "No specified task, exiting..."
    | Some task =>
        if bool_decide (task ∈ possible_tasks) then Validated mode task printed
        else Exit ("Did not understand task, please choose one of "
                   +:+ Py.join ", " possible_tasks)
    end.

Definition is_fatal (r : init_result) : bool :=
  match r with Exit _ => true | Validated _ _ _ => false end.

End Refine.

(** ** src/scrapers/spatula.py *)

Module Spatula.

(** The fields of a structure document that [struct2db] reads or writes. *)
Record document := Document {
  text_id : option (list string);
  tags : option (list string);
  quality : option Z;
  species_pot : option (gmap string string);
  stoichiometry : list (string * Z)
}.

(** The loop of [struct2db] over [struct['stoichiometry']], threading
    [struct['quality']]; a missing pseudopotential sets it to 0 and breaks. *)
Fixpoint quality_loop (pot : gmap string string) (stoich : list (string * Z))
    (q : Z) : Z :=
  match stoich with
  | [] => q
  | elem :: rest =>
      match pot !! elem.1 with
      | None => 0
      | Some p =>
          if Py.contains "OTF" (Py.upper p) then quality_loop pot rest (q - 1)
          else quality_loop pot rest q
      end
  end.

(** [struct2db(struct)]: [words] are the two lines drawn with [randint],
    [tag_dict] is [self.tag_dict.get('tags')], [repo] the collection the
    document is inserted into. Returns the new collection and 1. *)
Definition struct2db (words : string * string) (tag_dict : option (list string))
    (repo : list document) (struct : document) : list document * Z :=
  let plain_text_id := [words.1; words.2] in
  let tags' := match tag_dict with Some t => Some t | None => tags struct end in
  let q :=
    match species_pot struct with
    | None => 0
    | Some pot => quality_loop pot (stoichiometry struct) 5
    end in
  let struct := {| text_id := Some plain_text_id; tags := tags';
                   quality := Some q; species_pot := species_pot struct;
                   stoichiometry := stoichiometry struct |} in
  (repo ++ [struct], 1).

(** A pseudopotential definition is generic when the importer's test
    ['OTF' in pot.upper()] holds. *)
Definition generic (pot : gmap string string) (elem : string * Z) : bool :=
  match pot !! elem.1 with
  | Some p => Py.contains "OTF" (Py.upper p)
  | None => false
  end.

(** Every element of the stoichiometry has an entry in [species_pot]. *)
Definition covered (pot : gmap string string) (stoich : list (string * Z)) : bool :=
  forallb (λ elem, bool_decide (is_Some (pot !! elem.1))) stoich.

Definition count_generic (pot : gmap string string) (stoich : list (string * Z)) : Z :=
  Z.of_nat (length (filter (λ elem, generic pot elem = true) stoich)).

(** A document of six elements, each with a generic pseudopotential. *)
Definition six_generic : document :=
  let pot : gmap string string :=
    list_to_map [("Li", "2|1.2|10|12|14|10:20(qc=6)[OTF]"); ("La", "OTF");
                 ("Zr", "OTF"); ("O", "OTF"); ("Nb", "OTF"); ("Ta", "OTF")] in
  {| text_id := None; tags := None; quality := None;
     species_pot := Some pot;
     stoichiometry :=
       [("Li", 7); ("La", 3); ("Zr", 1); ("O", 12); ("Nb", 1); ("Ta", 1)] |}.

End Spatula.

(** ** matador/compute.py *)

Module Compute.

(** [n * [x]] for a list of one element: empty when [n] is not positive. *)
Definition list_mul {A} (n : Z) (x : A) : list A := replicate (Z.to_nat n) x.

(** [int(a / b)]: true division, then truncation towards zero. The quotient
    is taken exactly, as the double quotient is for [|a| < 2^53]. *)
Definition int_truediv (a b : Z) : Z := Z.quot a b.

(** The schedule set up by [FullRelaxer.__init__] for a geometry
    optimisation: [rough] is the keyword argument, [geom_method] is
    [calc_doc.get('geom_method')], [geom_max_iter] is
    [int(calc_doc['geom_max_iter'])]. *)
Definition geom_max_iter_list (rough : option Z) (geom_method : option string)
    (geom_max_iter : Z) : list Z :=
  let max_iter := geom_max_iter in
  let num_rough_iter := match rough with Some r => r | None => 4 end in
  let fine_iter := 20 in
  let rough_iter := 2 in
  let rough_iter :=
    match geom_method with
    | Some m => if String.eqb (Py.lower m) "tpsd" then 3 else rough_iter
    | None => rough_iter
    end in
  let num_fine_iter := int_truediv max_iter fine_iter in
  list_mul num_rough_iter rough_iter ++ list_mul num_fine_iter fine_iter.

(** *** [FullRelaxer.relax]: the loop over the schedule *)

(** What one sub-run brings back to the loop of [relax]. *)
Inductive run :=
| Raised
    (* an exception other than KeyboardInterrupt and SystemExit in the try block *)
| Interrupted
    (* a KeyboardInterrupt *)
| ScrapeFailed
    (* castep2dict returned a message and no success: [exit()] *)
| Scraped (optimised crashed : bool).
    (* the scraped [optimised] flag; whether a file [seed*001.err] is found *)

(** How [relax] ends: with a returned value ([None] when the loop runs
    out) or with [SystemExit]. *)
Inductive relax_result :=
| Returns (r : option bool)
| SystemExit.

(** The loop [for ind, num_iter in enumerate(geom_max_iter_list)] from
    index [ind] on, with the current [self.rerun] and [self.spin]; [len] is
    [len(geom_max_iter_list)] and [runs ind] is what sub-run [ind] brings
    back. Returns the pairs ([calc_doc['geom_max_iter']], [self.spin])
    the sub-runs were started with, and how [relax] ends. *)
Fixpoint relax_loop (runs : nat → run) (len ind : nat) (sched : list Z)
    (rerun spin : bool) : list (Z * bool) * relax_result :=
  match sched with
  | [] => ([], Returns None)
  | num_iter :: rest =>
      let num_iter := if rerun then 2 else num_iter in
      let spin := if Nat.eqb ind 0 then spin else false in
      let continue (rerun : bool) :=
        let '(trace, r) := relax_loop runs len (S ind) rest rerun spin in
        ((num_iter, spin) :: trace, r) in
      let stop (r : relax_result) := ([(num_iter, spin)], r) in
      match runs ind with
      | Raised => stop (Returns (Some false))
      | Interrupted => stop SystemExit
      | ScrapeFailed => stop SystemExit
      | Scraped optimised crashed =>
          let rerun := if rerun && negb optimised then false else rerun in
          if negb rerun && optimised then
            if crashed then stop (Returns (Some false)) else continue true
          else if rerun && optimised then stop (Returns (Some true))
          else if Nat.eqb ind (len - 1) then stop (Returns (Some false))
          else if crashed then stop (Returns (Some false))
          else continue rerun
      end
  end.

(** [relax()] for the schedule [geom_max_iter_list] and the initial
    [self.spin]. *)
Definition relax (runs : nat → run) (geom_max_iter_list : list Z) (spin : bool)
  : list (Z * bool) * relax_result :=
  relax_loop runs (length geom_max_iter_list) 0 geom_max_iter_list false spin.

End Compute.

(** ** matador/compute/batch.py *)

Module Batch.

(** *** [BatchRun.spawn]: collecting the workers' results *)

(** An exception instance as the parent sees it: its class and
    [str(err)]. *)
Record exn := Exn { etype : string; emsg : string }.

(** What a worker puts on the queue next to its [proc_id]: its job count,
    or the exception it caught with [except Exception]. *)
Inductive payload :=
| JobCount (n : Z)
| Raised (e : exn).

Inductive outcome :=
| Returns
| Raises (e : exn).

(** The loop [for _, proc in enumerate(procs): result = error_queue.get()]:
    [queue] lists the results in the order they arrive; [None] is a parent
    blocked for ever in [get()] on an empty queue. *)
Fixpoint collect (nprocs : nat) (queue : list (nat * payload))
    (errors : list (nat * exn)) : option (list (nat * exn)) :=
  match nprocs with
  | O => Some errors
  | S n =>
      match queue with
      | [] => None
      | result :: queue' =>
          collect n queue'
            (match result.2 with
             | Raised e => errors ++ [(result.1, e)]
             | JobCount _ => errors
             end)
      end
  end.

(** The loop that builds [error_message]. *)
Definition error_message (errors : list (nat * exn)) : string :=
  foldl (λ msg error,
           msg +:+ ("Process " +:+ pretty error.1 +:+ " raised error "
                    +:+ emsg error.2 +:+ ". "))
        "" errors.

Section Spawn.

(** [construct cls msg] is what the call [cls(msg)] of the exception class
    named [cls] ends in: the new instance, or the [TypeError] that the
    constructor raises when the class is not built from one argument. *)
Variable construct : string → string → exn.

(** The body of the [try] block: both [raise] statements, and a
    [TypeError] of [type(errors[0][1])(error_message)], end in the
    [except Exception] clause. *)
Definition try_block (errors : list (nat * exn)) : outcome :=
  match errors with
  | [] => Returns
  | error0 :: _ =>
      let error_message := error_message errors in
      if bool_decide
           (size (list_to_set ((λ error, etype error.2) <$> errors) : gset string)
            = 1%nat)
      then Raises (construct (etype error0.2) error_message)
      else Raises (Exn "BundledErrors" error_message)
  end.

(** [spawn] from the collection loop on. [procs] tells which workers are
    still alive after [join(timeout=10)]; the [except] clause terminates
    those and re-raises. Returns the outcome and the workers left alive. *)
Definition spawn (procs : list bool) (queue : list (nat * payload))
  : option (outcome * list bool) :=
  errors ← collect (length procs) queue [];
  match try_block errors with
  | Raises err => Some (Raises err, (λ _, false) <$> procs)
  | Returns => Some (Returns, procs)
  end.

End Spawn.

(** The constructors of builtin exception classes as far as the examples
    go: [UnicodeDecodeError] takes five arguments, the other classes are
    built from one message. *)
Definition construct_builtin (cls msg : string) : exn :=
  if String.eqb cls "UnicodeDecodeError"
  then Exn "TypeError" "function takes exactly 5 arguments (1 given)"
  else Exn cls msg.

(** The exceptions reported on the queue, in arrival order. *)
Definition reported (queue : list (nat * payload)) : list (nat * exn) :=
  omap (λ result, match result.2 with
                  | Raised e => Some (result.1, e)
                  | JobCount _ => None
                  end) queue.

(** *** [reset_job_folder] *)

(** An entry of the working directory. *)
Inductive node :=
| File (content : string)
| Dir.

Definition isfile (fs : gmap string node) (name : string) : bool :=
  match fs !! name with
  | Some (File _) => true
  | _ => false
  end.

Fixpoint endswith (suffix s : string) : bool :=
  String.eqb s suffix ||
  match s with
  | EmptyString => false
  | String _ s' => endswith suffix s'
  end.




(** [if os.path.isfile(name): os.remove(name)]. *)
Definition remove_if_file (fs : gmap string node) (name : string)
  : gmap string node :=
  if isfile fs name then delete name fs else fs.


Definition LF : ascii := ascii_of_nat 10.
Definition CR : ascii := ascii_of_nat 13.

(** Reading in text mode: [\r\n] and [\r] become [\n]. *)
Fixpoint universal_newlines (s : string) : string :=
  match s with
  | EmptyString => EmptyString
  | String c rest =>
      if Ascii.eqb c CR then
        match rest with
        | String c2 rest2 =>
            if Ascii.eqb c2 LF then String LF (universal_newlines rest2)
            else String LF (universal_newlines rest)
        | EmptyString => String LF EmptyString
        end
      else String c (universal_newlines rest)
  end.

(** [readlines] on translated text: every line keeps its final [\n]. *)
Fixpoint splitlines (s : string) : list string :=
  match s with
  | EmptyString => []
  | String c rest =>
      if Ascii.eqb c LF then String c EmptyString :: splitlines rest
      else match splitlines rest with
           | [] => [String c EmptyString]
           | line :: lines => String c line :: lines
           end
  end.

Definition readlines (content : string) : list string :=
  splitlines (universal_newlines content).








(** The description of one worker's failure. *)
Definition describe (error : nat * exn) : string :=
  "Process " +:+ pretty error.1 +:+ " raised error " +:+ emsg error.2
  +:+ ". ".


(** *** [BatchRun.perform_new_calculations] *)

(** [self._check_jobs_file(res)], with [self.paths['jobs_fname']] set to
    ['jobs.txt'] by [__init__]; [None] is the [OSError] of [open] when the
    jobs file is missing or a directory. *)
Definition _check_jobs_file (fs : gmap string node) (res : string)
  : option bool :=
  match fs !! "jobs.txt" with
  | Some (File content) => Some (existsb (Py.contains res) (readlines content))
  | _ => None
  end.

(** The errors of the file operations, as CPython reports them on Linux. *)
Definition IsADirectoryError (name : string) : exn :=
  Exn "IsADirectoryError" ("[Errno 21] Is a directory: '" +:+ name +:+ "'").

Definition FileNotFoundError (name : string) : exn :=
  Exn "FileNotFoundError"
      ("[Errno 2] No such file or directory: '" +:+ name +:+ "'").

(** [write] or [truncate] on a file object after its [with] block. *)
Definition closed_file : exn := Exn "ValueError" "I/O operation on closed file.".

(** [with open(name, 'a') as job_file: job_file.write(text)]. *)
Definition append_to (fs : gmap string node) (name text : string)
  : gmap string node + exn :=
  match fs !! name with
  | Some (File content) => inl (<[name := File (content +:+ text)]> fs)
  | Some Dir => inr (IsADirectoryError name)
  | None => inl (<[name := File text]> fs)
  end.

(** What the construction of a [FullRelaxer] brings back to the worker. *)
Inductive relaxer_end :=
| RelaxerRaised (e : exn)
    (* an [Exception] *)
| RelaxerExit
    (* a [BaseException] that is no [Exception] *)
| Relaxer (enough_memory success : bool).
    (* the truth values of the two attributes *)

(** How a worker ends: after [error_queue.put] of a job count (it returns)
    or of an exception (it re-raises), or with an exception that nothing
    was put for. *)
Inductive worker_end :=
| Put (p : payload)
| Escaped.

Section Worker.

(** [relaxer fs res] is the working directory after [FullRelaxer(res=res,
    ...)] and what it brought back; [ignore_jobs_file] and [limit] are
    [self.args.get('ignore_jobs_file')] and [self.limit]. *)
Variable relaxer : gmap string node → string → gmap string node * relaxer_end.
Variable ignore_jobs_file : bool.
Variable limit : option Z.

(** The loop [for res in res_list] of [perform_new_calculations] in one
    process, from the working directory [fs] and the current [job_count].
    Returns the working directory afterwards, the structures a
    [FullRelaxer] was constructed for with what it brought back (in order,
    after [started]) and how the worker ends. *)
Fixpoint perform_new_calculations (res_list : list string)
    (fs : gmap string node) (job_count : Z)
    (started : list (string * relaxer_end))
  : gmap string node * list (string * relaxer_end) * worker_end :=
  match res_list with
  | [] => (fs, started, Put (JobCount job_count))
  | res :: res_list =>
      let locked := isfile fs (res +:+ ".lock") in
      match (if ignore_jobs_file then Some false else _check_jobs_file fs res) with
      | None => (fs, started, Escaped)
      | Some listed =>
          let running := listed || locked in
          if running then perform_new_calculations res_list fs job_count started
          else if match limit with
                  | Some limit => job_count =? limit
                  | None => false
                  end
          then (fs, started, Put (JobCount job_count))
          else if isfile fs (res +:+ ".lock")
          then perform_new_calculations res_list fs job_count started
          else
            match append_to fs (res +:+ ".lock") "" with
            | inr err => (fs, started, Put (Raised err))
            | inl fs =>
            match append_to fs "jobs.txt" (res +:+ String LF "") with
            | inr err => (fs, started, Put (Raised err))
            | inl fs =>
            let job_count := job_count + 1 in
            let '(fs, relaxed) := relaxer fs res in
            let started := started ++ [(res, relaxed)] in
            match relaxed with
            | RelaxerRaised err => (fs, started, Put (Raised err))
            | RelaxerExit => (fs, started, Escaped)
            | Relaxer false _ =>
                match append_to fs "memory_exceeded.txt" (res +:+ String LF "") with
                | inr err => (fs, started, Put (Raised err))
                | inl fs =>
                let fs := remove_if_file fs (res +:+ ".lock") in
                match fs !! "jobs.txt" with
                | None => (fs, started, Put (Raised (FileNotFoundError "jobs.txt")))
                | Some Dir => (fs, started, Put (Raised (IsADirectoryError "jobs.txt")))
                | Some (File content) =>
                    (* the loop over [flines] runs after the [with] block *)
                    match readlines content with
                    | [] => perform_new_calculations res_list fs job_count started
                    | _ :: _ => (fs, started, Put (Raised closed_file))
                    end
                end
                end
            | Relaxer true true =>
                match append_to fs "finished_cleanly.txt" (res +:+ String LF "") with
                | inr err => (fs, started, Put (Raised err))
                | inl fs => perform_new_calculations res_list fs job_count started
                end
            | Relaxer true false =>
                match append_to fs "failures.txt" (res +:+ String LF "") with
                | inr err => (fs, started, Put (Raised err))
                | inl fs => perform_new_calculations res_list fs job_count started
                end
            end
            end
            end
      end
  end.

End Worker.

(** A name without line breaks. *)
Fixpoint one_line (s : string) : bool :=
  match s with
  | EmptyString => true
  | String c s' => negb (Ascii.eqb c LF) && negb (Ascii.eqb c CR) && one_line s'
  end.

(** The lines a worker appends to the jobs file for the jobs it starts. *)
Definition written (started : list (string * relaxer_end)) : string :=
  Py.join "" ((λ job, job.1 +:+ String LF "") <$> started).

End Batch.

(** ** matador/hull.py *)

Module Hull.

(** Reals stored in documents are modelled by exact rationals; the results
    below only rely on the order of the ion counts. *)

(** *** [hull_2d]: enthalpy and volume per unit of B *)

Record document := Document {
  stoichiometry : list (string * Z);
  num_fu : Z;
  enthalpy : Q;
  cell_volume : Q;
  enthalpy_per_b : option Q;
  cell_volume_per_b : option Q
}.

(** The double loop that fills [nums_b]. *)
Definition nums_b (one_minus_x_elem : list string) (stoich : list (string * Z))
  : list Z :=
  foldl (λ nums_b elem,
           foldl (λ nums_b '(chem_pot_ind, chem_pot),
                    if bool_decide (elem.1 = chem_pot)
                    then alter (λ n, n + elem.2) chem_pot_ind nums_b
                    else nums_b)
                 nums_b (imap pair one_minus_x_elem))
        (replicate (length one_minus_x_elem) 0) stoich.

Definition num_b (one_minus_x_elem : list string) (doc : document) : Z :=
  foldr Z.add 0 (nums_b one_minus_x_elem (stoichiometry doc)).

(** The value of the literal [12345e5]. *)
Definition sentinel : Q := inject_Z 1234500000.

(** [a / b] on numbers; [None] is [ZeroDivisionError]. *)
Definition truediv (a : Q) (b : Z) : option Q :=
  if b =? 0 then None else Some (a / inject_Z b)%Q.

(** The body of [if not self.ternary:] for one document of the cursor. *)
Definition set_per_b (one_minus_x_elem : list string) (doc : document)
  : option document :=
  let num_b := num_b one_minus_x_elem doc in
  let num_fu := num_fu doc in
  if num_b =? 0 then
    Some {| stoichiometry := stoichiometry doc; num_fu := num_fu;
            enthalpy := enthalpy doc; cell_volume := cell_volume doc;
            enthalpy_per_b := Some sentinel;
            cell_volume_per_b := Some sentinel |}
  else
    e ← truediv (enthalpy doc) (num_b * num_fu);
    v ← truediv (cell_volume doc) (num_b * num_fu);
    Some {| stoichiometry := stoichiometry doc; num_fu := num_fu;
            enthalpy := enthalpy doc; cell_volume := cell_volume doc;
            enthalpy_per_b := Some e; cell_volume_per_b := Some v |}.

(** The loop of [hull_2d] over the cursor, as far as the per-B fields go;
    [None] is a [ZeroDivisionError] leaving the loop. *)
Definition hull_2d (ternary : bool) (one_minus_x_elem : list string)
    (cursor : list document) : option (list document) :=
  mapM (λ doc, if negb ternary then set_per_b one_minus_x_elem doc else Some doc)
       cursor.

(** *** [voltage_curve], binary case *)

(** The fields of a hull document read by [get_array_from_cursor]. *)
Record hull_doc := HullDoc {
  gravimetric_capacity : Q;
  hd_enthalpy_per_b : Q
}.

(** Values paired with their positions, ordered by value. *)
Module ByValue <: Orders.TotalLeBool.
Definition t : Type := Q * nat.
Definition leb (p q : t) : bool := Qle_bool p.1 q.1.
Lemma leb_total : ∀ p q, leb p q = true ∨ leb q p = true.
Proof.
  intros p q. unfold leb. rewrite !Qle_bool_iff.
  destruct (Qlt_le_dec p.1 q.1) as [H|H]; [left; by apply Qlt_le_weak | by right].
Qed.
End ByValue.

Module SortByValue := Mergesort.Sort ByValue.

(** The array paired with its indices and sorted by value: the first
    components are [np.sort(x)], the second ones [np.argsort(x)]. *)
Definition sorted_pairs (x : list Q) : list (Q * nat) :=
  SortByValue.sort (imap (λ i v, (v, i)) x).

Definition np_sort (x : list Q) : list Q := (sorted_pairs x).*1.
Definition np_argsort (x : list Q) : list nat := (sorted_pairs x).*2.

(** [arr[idxs]] with an index array; [None] is [IndexError]. *)
Definition take_idx {A} (arr : list A) (idxs : list nat) : option (list A) :=
  mapM (λ i, arr !! i) idxs.

(** The mask [aux[1:] != aux[:-1]] of [np.unique], applied to the pairs:
    a pair is kept when its value differs from the one before it. *)
Fixpoint keep_changes (prev : option Q) (pairs : list (Q * nat))
  : list (Q * nat) :=
  match pairs with
  | [] => []
  | p :: rest =>
      let tail := keep_changes (Some p.1) rest in
      match prev with
      | Some v => if Qeq_bool p.1 v then tail else p :: tail
      | None => p :: tail
      end
  end.

(** [np.unique(ar, return_index=True)]. *)
Definition np_unique (ar : list Q) : list Q * list nat :=
  let kept := keep_changes None (sorted_pairs ar) in
  (kept.*1, kept.*2).

(** [-(H[i] - H[i-1]) / (x[i] - x[i-1]) + mu_enthalpy[0]]. *)
Definition voltage_at (H x mu_enthalpy : list Q) (i : Z) : option Q :=
  hi ← Py.index H i;
  hp ← Py.index H (i - 1);
  xi ← Py.index x i;
  xp ← Py.index x (i - 1);
  mu ← Py.index mu_enthalpy 0;
  Some (- (hi - hp) / (xi - xp) + mu)%Q.

(** The arrays of [voltage_curve] after sorting and de-duplication:
    [(x, stable_enthalpy_per_b, Q)]. [get_num_intercalated] is the helper
    of [chem_utils] that gives the ion count of every structure. *)
Definition stable_arrays (get_num_intercalated : list hull_doc → list Q)
    (hull_cursor : list hull_doc) : option (list Q * list Q * list Q) :=
  let x := get_num_intercalated hull_cursor in
  Q ← take_idx (gravimetric_capacity <$> hull_cursor) (np_argsort x);
  stable_enthalpy_per_b ←
    take_idx (hd_enthalpy_per_b <$> hull_cursor) (np_argsort x);
  let x := np_sort x in
  let '(x, uniq_idxs) := np_unique x in
  stable_enthalpy_per_b ← take_idx stable_enthalpy_per_b uniq_idxs;
  Q ← take_idx Q uniq_idxs;
  Some (x, stable_enthalpy_per_b, Q).

(** The list [V]: the loop over [range(len(x))], then [V[0] = V[1]] and
    [V[-1] = 0]. [None] is an [IndexError]. *)
Definition voltages (stable_enthalpy_per_b x mu_enthalpy : list Q)
  : option (list Q) :=
  V ← mapM (voltage_at stable_enthalpy_per_b x mu_enthalpy)
           (Z.of_nat <$> seq 0 (length x));
  v1 ← Py.index V 1;
  V ← Py.setitem V 0 v1;
  Py.setitem V (-1) 0%Q.

(** [voltage_curve(hull_cursor)] when the hull is not ternary: the values
    stored in [self.voltages], [self.Q] and [self.x]. *)
Definition voltage_curve (get_num_intercalated : list hull_doc → list Q)
    (mu_enthalpy : list Q) (hull_cursor : list hull_doc)
  : option (list Q * list Q * list Q) :=
  '(x, stable_enthalpy_per_b, Q) ← stable_arrays get_num_intercalated hull_cursor;
  V ← voltages stable_enthalpy_per_b x mu_enthalpy;
  Some (V, Q, x).

(** The voltage between the compositions [i - 1] and [i], for [i >= 1]. *)
Definition step_voltage (stable_enthalpy_per_b x : list Q) (mu : Q) (i : nat)
  : option Q :=
  hi ← stable_enthalpy_per_b !! i;
  hp ← stable_enthalpy_per_b !! (i - 1)%nat;
  xi ← x !! i;
  xp ← x !! (i - 1)%nat;
  Some (- (hi - hp) / (xi - xp) + mu)%Q.

(** Four structures, two of them with the same ion count. *)
Definition example_cursor : list hull_doc :=
  [HullDoc 600 (-5); HullDoc 0 (-1); HullDoc 900 (-9);
   HullDoc 600 (-6)]%Q.

(** An ion count read off the capacity, for the example. *)
Definition example_counts (cursor : list hull_doc) : list Q :=
  (λ doc, gravimetric_capacity doc / 300)%Q <$> cursor.

End Hull.

(** ** src/utils/cell_utils.py *)

Module CellUtils.

(** The lattice algebra ([real2recip], [cart2abcstar]) is given on real
    numbers, without the rounding of doubles; [calc_mp_spacing], which
    rounds its result, is described together with its rounding errors. *)

Definition vec : Type := R * R * R.

(** [np.cross(a, b)] and [np.dot(a, b)] on vectors of length 3. *)
Definition cross (a b : vec) : vec :=
  let '(a0, a1, a2) := a in
  let '(b0, b1, b2) := b in
  (a1 * b2 - a2 * b1, a2 * b0 - a0 * b2, a0 * b1 - a1 * b0)%R.

Definition dot (a b : vec) : R :=
  let '(a0, a1, a2) := a in
  let '(b0, b1, b2) := b in
  (a0 * b0 + a1 * b1 + a2 * b2)%R.

(** [k * v / d] on a vector. *)
Definition scale_div (k : R) (v : vec) (d : R) : vec :=
  let '(v0, v1, v2) := v in (k * v0 / d, k * v1 / d, k * v2 / d)%R.

(** [real2recip(real_lat)]. *)
Definition real2recip (real_lat : vec * vec * vec) : vec * vec * vec :=
  let '(r0, r1, r2) := real_lat in
  (scale_div (2 * PI) (cross r1 r2) (dot r0 (cross r1 r2)),
   scale_div (2 * PI) (cross r2 r0) (dot r1 (cross r2 r0)),
   scale_div (2 * PI) (cross r0 r1) (dot r2 (cross r0 r1))).

(** One entry of [np.sqrt(np.sum(np.power(recip_lat, 2), axis=1))]. *)
Definition norm (v : vec) : R :=
  let '(v0, v1, v2) := v in sqrt (v0 ^ 2 + v1 ^ 2 + v2 ^ 2).

Definition recip_len (real_lat : vec * vec * vec) : R * R * R :=
  let '(b0, b1, b2) := real2recip real_lat in (norm b0, norm b1, norm b2).

(** One turn of the loop over [j]. *)
Definition max_step (max_spacing spacing : R) : R :=
  if Rlt_dec max_spacing spacing then spacing else max_spacing.




Section Doubles.

(** The code computes in doubles. The model fixes neither the rounding of
    the arithmetic nor the rule of [round]: a computed value is a real
    number within [err] of the exact value of the expression that
    computes it from the computed operands, and [round] is the rule of the
    interpreter. *)
Variable err : R.
Variable round : R → Z.




End Doubles.

(** The exact quotient [recip_len[j] / (2*pi*mp_grid[j])] for a non-zero
    grid dimension, and its maximum over the three axes: the spacing of
    the grid, which the computed value approximates. *)
Definition spacing (len : R) (n : Z) : R := (len / (2 * PI * IZR n))%R.

Definition max_spacing (real_lat : vec * vec * vec) (mp_grid : Z * Z * Z) : R :=
  let '(l0, l1, l2) := recip_len real_lat in
  let '(n0, n1, n2) := mp_grid in
  max_step (max_step (max_step 0 (spacing l0 n0)) (spacing l1 n1)) (spacing l2 n2).






End CellUtils.

(** ** scrapers/spatula.py: the k-point spacing estimated by [files2db] *)

Module SpatulaKpoints.

(** [final_struct] as far as the estimate reads and writes it:
    [lattice_abc[0]] (already floats), and the entries [kpoints_mp_grid]
    and [kpoints_mp_spacing] when the keys are present. *)
Record struct := Struct {
  lattice_abc0 : list R;
  kpoints_mp_grid : option (list Z);
  kpoints_mp_spacing : option R
}.

(** The inner loop [for j in range(3)] over [max_spacing]; [None] is the
    [IndexError] of a short grid or the [ZeroDivisionError] of a zero grid
    dimension. *)
Definition inner_loop (recip_abc : list R) (grid : list Z) : option R :=
  foldl (λ (acc : option R) (j : nat),
           max_spacing ← acc;
           recip ← recip_abc !! j;
           n ← grid !! j;
           if Z.eqb n 0 then None
           else Some (CellUtils.max_step max_spacing
                        (recip / (2 * PI * IZR n))%R))
        (Some 0%R) [0; 1; 2]%nat.

Section Estimate.

(** The last two statements of the inner block,
    [exponent = round(log10(max_spacing) - 1)] and
    [round(max_spacing + 0.5 * 10**exponent, 2)], as the interpreter
    evaluates them on doubles: the value stored, or [None] for the
    exception of [log10] outside its domain. *)
Variable estimate : R → option R.

(** The outer loop [for j in range(3)] inside the [try] block, with the
    current [recip_abc]; an exception leaves the loop with the entries
    written so far. The inner loop has a counter of its own: [range(3)]
    hands the outer loop its next value whatever the inner loop left in
    [j]. *)
Fixpoint outer_loop (js : list nat) (recip_abc : list R) (final_struct : struct)
  : struct :=
  match js with
  | [] => final_struct
  | j :: js =>
      match lattice_abc0 final_struct !! j with
      | None => final_struct
      | Some x =>
          if Req_dec_T x 0 then final_struct
          else
            let recip_abc := <[j := (2 * PI / x)%R]> recip_abc in
            match kpoints_mp_spacing final_struct, kpoints_mp_grid final_struct with
            | None, Some grid =>
                match inner_loop recip_abc grid with
                | None => final_struct
                | Some max_spacing =>
                    match estimate max_spacing with
                    | None => final_struct
                    | Some spacing =>
                        outer_loop js recip_abc
                          (Struct (lattice_abc0 final_struct)
                             (kpoints_mp_grid final_struct) (Some spacing))
                    end
                end
            | _, _ => outer_loop js recip_abc final_struct
            end
      end
  end.

(** The [try] block of [files2db] that estimates a missing spacing. *)
Definition estimate_spacing (final_struct : struct) : struct :=
  outer_loop [0; 1; 2]%nat [0; 0; 0]%R final_struct.

End Estimate.

End SpatulaKpoints.

(** ** matador/hull.py: the chemical potentials taken from a cursor *)

Module Chempots.

(** A document as far as [get_chempots] reads and writes it; the last two
    keys may be absent. *)
Record document := Document {
  stoichiometry : list (string * Z);
  enthalpy_per_atom : Q;
  hull_distance : option Q;
  enthalpy_per_b : option Q
}.

(** A document with its position in [self.cursor]: the position stands for
    the identity of the dict, which the lists built from the cursor
    share. *)
Definition entry : Type := nat * document.

(** [sorted(..., key=lambda k: k['enthalpy_per_atom'])]: the sort is
    stable, so a document is put before the documents of the same key that
    follow it. *)
Fixpoint insert (d : entry) (l : list entry) : list entry :=
  match l with
  | [] => [d]
  | x :: l' =>
      if Qle_bool (enthalpy_per_atom d.2) (enthalpy_per_atom x.2)
      then d :: x :: l'
      else x :: insert d l'
  end.

Definition sorted (l : list entry) : list entry := foldr insert [] l.

(** [doc['stoichiometry'][0][0] == elem]; the documents of
    [chempot_cursor] have one entry. *)
Definition is_elem (elem : string) (d : entry) : bool :=
  match stoichiometry d.2 with
  | (symbol, _) :: _ => String.eqb symbol elem
  | [] => false
  end.

(** The loops that fill [self.match]: for every element the first
    document of [chempot_cursor] for it, if there is one. *)
Definition find_matches (elements : list string) (chempot_cursor : list entry)
  : list entry :=
  omap (λ elem, find (is_elem elem) chempot_cursor) elements.

(** The two assignments of the last loop. *)
Definition set_reference (doc : document) : document :=
  Document (stoichiometry doc) (enthalpy_per_atom doc) (Some 0%Q)
           (Some (enthalpy_per_atom doc)).

Definition chempot_cursor (cursor : list document) : list entry :=
  sorted (filter (λ d : entry, length (stoichiometry d.2) = 1%nat)
                 (imap pair cursor)).

(** [get_chempots] for a hull made from a cursor, without chemical
    potentials on the command line: the positions of the documents of
    [self.match] and the cursor afterwards; [None] is the
    [RuntimeError]. *)
Definition get_chempots (cursor : list document) (elements : list string)
  : option (list nat * list document) :=
  let matched := find_matches elements (chempot_cursor cursor) in
  if bool_decide (length matched ≠ length elements) then None
  else Some (matched.*1,
             foldl (λ cursor (d : entry), alter set_reference d.1 cursor)
                   cursor matched).

End Chempots.

(** ** matador/plotting/battery_plotting.py *)

Module BatteryPlotting.

(** One call [ax.plot([x0, x1], [y0, y1], ...)]: the two end points and
    the [label] keyword, if it is passed. *)
Record segment := Segment {
  start : Q * Q;
  stop : Q * Q;
  label : option string
}.

(** One turn of the loop of [_add_voltage_curve] for [i], with [n] for
    [len(voltages)]; [None] is the [IndexError] of [capacities], raised
    before the turn draws anything. *)
Definition turn (capacities voltages : list Q) (label : option string)
    (n i : nat) : option (list segment) :=
  c0 ← capacities !! (i - 1)%nat;
  c1 ← capacities !! i;
  v ← voltages !! i;
  let flat := Segment (c0, v) (c1, v) (if Nat.eqb i 1 then label else None) in
  if negb (Nat.eqb i (n - 2)) then
    v' ← voltages !! (i + 1)%nat;
    Some [flat; Segment (c1, v) (c1, v') None]
  else Some [flat].

(** The loop over [range(1, len(voltages) - 1)]: what was drawn, and
    whether the loop ended in an [IndexError]. *)
Fixpoint loop (capacities voltages : list Q) (label : option string)
    (n : nat) (range : list nat) : list segment * bool :=
  match range with
  | [] => ([], false)
  | i :: range =>
      match turn capacities voltages label n i with
      | None => ([], true)
      | Some drawn =>
          let '(rest, raised) := loop capacities voltages label n range in
          (drawn ++ rest, raised)
      end
  end.

Definition _add_voltage_curve (capacities voltages : list Q)
    (label : option string) : list segment * bool :=
  loop capacities voltages label (length voltages)
       (seq 1 (length voltages - 1 - 1)).

(** A path: every segment starts where the one before it stopped. *)
Fixpoint chained (from : Q * Q) (path : list segment) : Prop :=
  match path with
  | [] => True
  | s :: path => start s = from ∧ chained (stop s) path
  end.

End BatteryPlotting.

(** * Properties *)

(** ** Strings and joins *)

Lemma append_cons (c : ascii) (s1 s2 : string) :
  String c s1 +:+ s2 = String c (s1 +:+ s2).
Proof. reflexivity. Qed.

Lemma append_nil_r (s : string) : s +:+ "" = s.
Proof. induction s as [|c s IH]; [done | by rewrite append_cons, IH]. Qed.

Lemma append_assoc (s1 s2 s3 : string) : (s1 +:+ s2) +:+ s3 = s1 +:+ s2 +:+ s3.
Proof. induction s1 as [|c s1 IH]; [done | by rewrite !append_cons, IH]. Qed.

Lemma join_empty_cons (x : string) (l : list string) :
  Py.join "" (x :: l) = x +:+ Py.join "" l.
Proof.
  unfold Py.join. destruct l as [|y l]; simpl; [by rewrite append_nil_r | done].
Qed.

Lemma join_empty_app (l1 l2 : list string) :
  Py.join "" (l1 ++ l2) = Py.join "" l1 +:+ Py.join "" l2.
Proof.
  induction l1 as [|x l1 IH]; [done |].
  rewrite <- app_comm_cons, !join_empty_cons, IH. by rewrite append_assoc.
Qed.

(** ** [stoich2tex] *)

Lemma round_to_53_small (a : Z) : 0 <= a <= 2 ^ 53 → Py.round_to_53 a = a.
Proof.
  intros [H0 H1]. unfold Py.round_to_53.
  destruct (Z.eq_dec a (2 ^ 53)) as [->|Hne]; [by vm_compute |].
  assert (Z.log2 a + 1 <= 53) as Hk.
  { destruct (Z.eq_dec a 0) as [->|Hz]; [by vm_compute |].
    assert (Z.log2 a < 53) by (apply Z.log2_lt_pow2; lia). lia. }
  apply Z.leb_le in Hk. by rewrite Hk.
Qed.

Lemma float_of_int_small (n : Z) : Z.abs n <= 2 ^ 53 → Py.float_of_int n = Some n.
Proof.
  intros Hn. unfold Py.float_of_int.
  rewrite round_to_53_small by lia.
  replace (Z.sgn n * Z.abs n) with n by (symmetry; rewrite Z.mul_comm; apply Z.abs_sgn).
  destruct (Z.leb_spec (2 ^ 1024) (Z.abs n)) as [H|H]; [|done].
  assert (2 ^ 53 < 2 ^ 1024) by (apply Z.pow_lt_mono_r; lia). lia.
Qed.

Lemma stoich2tex_step_convertible (repr_float : Q → string)
    (list_tex : list string) (p : string * PrintUtils.number) :
  PrintUtils.convertible p.2 →
  PrintUtils.stoich2tex_step repr_float list_tex p
  = Some (list_tex ++ PrintUtils.entries_of_pair repr_float p).
Proof.
  intros Hp. destruct p as [symbol count]. simpl in *.
  unfold PrintUtils.stoich2tex_step, PrintUtils.entries_of_pair,
    PrintUtils.shown. simpl.
  assert (is_Some (PrintUtils.is_integer count)) as [integral Hint].
  { destruct count as [n|x]; simpl in *; [| done].
    destruct Hp as [v ->]. done. }
  rewrite Hint. destruct (PrintUtils.is_one count); simpl.
  - destruct (PrintUtils.positive count); simpl; by rewrite ?app_nil_r.
  - destruct (PrintUtils.positive count), integral; simpl;
      by rewrite <- ?app_assoc.
Qed.

Lemma stoich2tex_step_overflow (repr_float : Q → string)
    (list_tex : list string) (symbol : string) (n : Z) :
  Py.float_of_int n = None →
  PrintUtils.stoich2tex_step repr_float list_tex (symbol, PrintUtils.Int n)
  = None.
Proof.
  intros Hn. unfold PrintUtils.stoich2tex_step. simpl. rewrite Hn.
  destruct (Z.eqb_spec n 1) as [->|_]; [by vm_compute in Hn |].
  by destruct (0 <? n).
Qed.

Lemma stoich2tex_loop_convertible (repr_float : Q → string)
    (s : list (string * PrintUtils.number)) (list_tex : list string) :
  Forall (λ p, PrintUtils.convertible p.2) s →
  PrintUtils.stoich2tex_loop repr_float s list_tex
  = Some (list_tex ++ concat (PrintUtils.entries_of_pair repr_float <$> s)).
Proof.
  intros Hs. revert list_tex.
  induction Hs as [|p s Hp Hs IH]; intros list_tex; simpl.
  - by rewrite app_nil_r.
  - rewrite stoich2tex_step_convertible by done. simpl.
    rewrite IH. by rewrite <- app_assoc.
Qed.

Lemma stoich2tex_loop_overflow (repr_float : Q → string)
    (s : list (string * PrintUtils.number)) (list_tex : list string) :
  ¬ Forall (λ p, PrintUtils.convertible p.2) s →
  PrintUtils.stoich2tex_loop repr_float s list_tex = None.
Proof.
  revert list_tex. induction s as [|[symbol count] s IH];
    intros list_tex Hs; [by destruct Hs |].
  cbn [PrintUtils.stoich2tex_loop].
  destruct count as [n|x].
  - destruct (Py.float_of_int n) as [v|] eqn:Hn.
    + rewrite stoich2tex_step_convertible by (simpl; by rewrite Hn). simpl.
      apply IH. intros Hrest. apply Hs. constructor; [| done].
      simpl. by rewrite Hn.
    + by rewrite stoich2tex_step_overflow.
  - rewrite stoich2tex_step_convertible by done. simpl.
    apply IH. intros Hrest. apply Hs. by constructor.
Qed.

Lemma join_entries_of_pair (repr_float : Q → string)
    (p : string * PrintUtils.number) :
  Py.join "" (PrintUtils.entries_of_pair repr_float p)
  = PrintUtils.tex_of_pair repr_float p.
Proof.
  unfold PrintUtils.entries_of_pair, PrintUtils.tex_of_pair.
  rewrite join_empty_app.
  destruct (PrintUtils.positive p.2), (PrintUtils.is_one p.2); simpl;
    by rewrite ?append_nil_r.
Qed.

Lemma join_concat_entries (repr_float : Q → string)
    (s : list (string * PrintUtils.number)) :
  Py.join "" (concat (PrintUtils.entries_of_pair repr_float <$> s))
  = Py.join "" (PrintUtils.tex_of_pair repr_float <$> s).
Proof.
  induction s as [|p s IH]; [done |].
  rewrite !fmap_cons. simpl concat.
  by rewrite join_empty_app, join_empty_cons, IH, join_entries_of_pair.
Qed.

Lemma is_integer_float (x : Q) :
  (Z.pos (Qden (Qred x)) =? 1) = true
  ↔ (inject_Z (PrintUtils.int (PrintUtils.Float x)) == x)%Q.
Proof.
  cbn [PrintUtils.int]. split.
  - intros Hden%Z.eqb_eq.
    pose proof (Qred_correct x) as Hred.
    destruct (Qred x) as [k d] eqn:Hx. simpl in Hden.
    injection Hden as ->.
    assert (Qnum x = k * Z.pos (Qden x)) as ->.
    { unfold Qeq in Hred. simpl in Hred. lia. }
    rewrite Z.quot_mul by done. by rewrite <- Hred.
  - intros Hint. apply Z.eqb_eq.
    apply Qred_complete in Hint. by rewrite <- Hint, inject_Z_Qred.
Qed.

Lemma tex_of_pair_float (repr_float : Q → string) (symbol : string) (x : Q) :
  PrintUtils.tex_of_pair repr_float (symbol, PrintUtils.Float x)
  = (if Qlt_le_dec 0 x then symbol else "")
    +:+ (if Qeq_dec x 1 then ""
         else "_{" +:+ (if Qeq_dec (inject_Z (PrintUtils.int
                                                (PrintUtils.Float x))) x
                        then pretty (PrintUtils.int (PrintUtils.Float x))
                        else repr_float x) +:+ "}").
Proof.
  unfold PrintUtils.tex_of_pair, PrintUtils.shown.
  cbn [fst snd PrintUtils.positive PrintUtils.is_one PrintUtils.is_integer].
  f_equal.
  - destruct (Qlt_le_dec 0 x) as [Hlt|Hle].
    + destruct (Qle_bool x 0) eqn:Hle; [| done].
      apply Qle_bool_iff in Hle. by apply Qle_not_lt in Hle.
    + apply Qle_bool_iff in Hle. by rewrite Hle.
  - destruct (Qeq_dec x 1) as [Heq|Hne].
    + apply Qeq_bool_iff in Heq. by rewrite Heq.
    + destruct (Qeq_bool x 1) eqn:Heq; [by apply Qeq_bool_iff in Heq |].
      f_equal. f_equal.
      destruct (Qeq_dec _ x) as [Hint|Hfrac].
      * apply is_integer_float in Hint. by rewrite Hint.
      * destruct (Z.pos (Qden (Qred x)) =? 1) eqn:Hden; [| done].
        by apply is_integer_float in Hden.
Qed.

(** C8, as stated, fails: [float(count)] raises [OverflowError] for an
    [int] count of [2^1024], so no string is returned (there is no float
    in the list: the way floats are shown plays no part). *)
Lemma stoich2tex_overflow :
  PrintUtils.stoich2tex (λ _, "") [("Li", PrintUtils.Int (2 ^ 1024))] = None.
Proof. by vm_compute. Qed.

(** C8, amended. For a stoichiometry whose [int] counts are within the
    range of a double, [stoich2tex] returns the pairs' contributions joined
    from left to right between two dollar signs, where a pair contributes
    its symbol exactly when its count is greater than 0 and the group
    [_{count}] exactly when its count is not equal to 1, the count shown
    as written for an [int] and as [int(count)] for a [float] that is an
    integer; [[['Li', 3], ['P', 1]]] gives [$Li_{3}P$]. With an [int]
    count outside the range of a double, the outcome is the
    [OverflowError]. *)
Theorem stoich2tex_spec (repr_float : Q → string)
    (s : list (string * PrintUtils.number)) :
  (Forall (λ p, PrintUtils.convertible p.2) s →
   PrintUtils.stoich2tex repr_float s
   = Some ("$" +:+ Py.join "" (PrintUtils.tex_of_pair repr_float <$> s)
           +:+ "$"))
  ∧ (¬ Forall (λ p, PrintUtils.convertible p.2) s →
     PrintUtils.stoich2tex repr_float s = None)
  ∧ (∀ symbol n,
       PrintUtils.tex_of_pair repr_float (symbol, PrintUtils.Int n)
       = (if bool_decide (0 < n) then symbol else "")
         +:+ (if bool_decide (n ≠ 1) then "_{" +:+ pretty n +:+ "}" else ""))
  ∧ (∀ symbol x,
       PrintUtils.tex_of_pair repr_float (symbol, PrintUtils.Float x)
       = (if Qlt_le_dec 0 x then symbol else "")
         +:+ (if Qeq_dec x 1 then ""
              else "_{" +:+ (if Qeq_dec (inject_Z (PrintUtils.int
                                                     (PrintUtils.Float x))) x
                             then pretty (PrintUtils.int (PrintUtils.Float x))
                             else repr_float x) +:+ "}"))
  ∧ PrintUtils.stoich2tex repr_float
      [("Li", PrintUtils.Int 3); ("P", PrintUtils.Int 1)]
    = Some "$Li_{3}P$".
Proof.
  split; [| split; [| split; [| split]]].
  - intros Hs. unfold PrintUtils.stoich2tex.
    rewrite stoich2tex_loop_convertible by done. simpl.
    by rewrite join_concat_entries.
  - intros Hs. unfold PrintUtils.stoich2tex.
    by rewrite stoich2tex_loop_overflow.
  - intros symbol n. unfold PrintUtils.tex_of_pair, PrintUtils.shown. simpl.
    destruct (Z.ltb_spec 0 n), (Z.eqb_spec n 1);
      repeat case_bool_decide; try done; try lia;
      by destruct (Py.float_of_int n).
  - intros symbol x. apply tex_of_pair_float.
  - by vm_compute.
Qed.

Lemma stoich2tex_spec_witness :
  PrintUtils.stoich2tex (λ _, "0.5")
    [("Li", PrintUtils.Int 3); ("P", PrintUtils.Float (1 # 2))]
  = Some "$Li_{3}P_{0.5}$".
Proof.
  refine (eq_trans
            (proj1 (stoich2tex_spec (λ _, "0.5")
                      [("Li", PrintUtils.Int 3);
                       ("P", PrintUtils.Float (1 # 2))]) _) _).
  - constructor; [by exists 3 |]. constructor; [exact I | constructor].
  - reflexivity.
Defined.

(** ** [Refiner.__init__] *)

Lemma write_mode_after_default (mode : string) :
  bool_decide
    ((if bool_decide (mode ∈ Refine.possible_modes) then mode else "display")
     ∈ ["overwrite"; "set"])
  = bool_decide (mode ∈ ["overwrite"; "set"]).
Proof.
  destruct (bool_decide (mode ∈ Refine.possible_modes)) eqn:Hmode; [done |].
  apply bool_decide_eq_false_1 in Hmode.
  rewrite (bool_decide_eq_false_2 ("display" ∈ ["overwrite"; "set"])) by set_solver.
  symmetry. apply bool_decide_eq_false_2.
  intros Hin. apply Hmode. unfold Refine.possible_modes. set_solver.
Qed.

(** Whether the checks are fatal, as a boolean expression of the arguments. *)
Lemma is_fatal_Refiner_init {Coll} (collection : option Coll)
    (task : option string) (mode : string) :
  Refine.is_fatal (Refine.Refiner_init collection task mode)
  = (negb (bool_decide (is_Some collection))
     && bool_decide (mode ∈ ["overwrite"; "set"]))
    || match task with
       | Some t => negb (bool_decide (t ∈ Refine.possible_tasks))
       | None => true
       end.
Proof.
  unfold Refine.Refiner_init.
  rewrite <- (write_mode_after_default mode).
  destruct (bool_decide (mode ∈ Refine.possible_modes));
    (destruct (negb (bool_decide (is_Some collection)) && _); [done |]);
    (destruct task as [t|]; [|done]);
    by destruct (bool_decide (t ∈ Refine.possible_tasks)).
Qed.

Lemma Refiner_init_display {Coll} (collection : option Coll) (task : string)
    (mode : string) :
  mode ∉ Refine.possible_modes → task ∈ Refine.possible_tasks →
  Refine.Refiner_init collection (Some task) mode
  = Refine.Validated "display" task
      ["Mode not understood, defaulting to " +:+ Refine.dquote +:+ "display"
         +:+ Refine.dquote +:+ "."].
Proof.
  intros Hmode Htask. unfold Refine.Refiner_init.
  rewrite (bool_decide_eq_false_2 _ Hmode).
  rewrite (bool_decide_eq_false_2 ("display" ∈ ["overwrite"; "set"])) by set_solver.
  by rewrite andb_false_r, (bool_decide_eq_true_2 _ Htask).
Qed.

(** C3, as stated, fails: a mode outside the supported set is replaced by
    ["display"] and the constructor goes on, here without a collection. *)
Lemma Refiner_init_unknown_mode_not_fatal :
  ("verbose" ∉ Refine.possible_modes)
  ∧ Refine.is_fatal (Refine.Refiner_init (@None unit) (Some "sym") "verbose")
    = false.
Proof. split; [set_solver | by vm_compute]. Qed.

(** C3, amended. The constructor is fatal exactly when the task is not
    given or outside the supported set, or when mode ["overwrite"] or
    ["set"] is asked without a collection; a mode outside the supported set
    is not fatal by itself: the one line [Mode not understood, defaulting
    to "display".] is printed and the constructor goes on in mode
    ["display"]. *)
Theorem Refiner_init_fatal {Coll} (collection : option Coll)
    (task : option string) (mode : string) :
  (Refine.is_fatal (Refine.Refiner_init collection task mode) = true
   ↔ (task = None ∨ (∃ t, task = Some t ∧ t ∉ Refine.possible_tasks))
     ∨ (collection = None ∧ mode ∈ ["overwrite"; "set"]))
  ∧ (mode ∉ Refine.possible_modes →
     ∀ t, task = Some t → t ∈ Refine.possible_tasks →
     Refine.Refiner_init collection task mode
     = Refine.Validated "display" t
         ["Mode not understood, defaulting to " +:+ Refine.dquote
            +:+ "display" +:+ Refine.dquote +:+ "."]).
Proof.
  split.
  - rewrite is_fatal_Refiner_init, orb_true_iff, andb_true_iff, negb_true_iff.
    rewrite bool_decide_eq_false, bool_decide_eq_true, <- eq_None_not_Some.
    split.
    + intros [Hw|Ht]; [by right |]. left.
      destruct task as [t|]; [right | by left].
      exists t. split; [done |]. by apply negb_true_iff, bool_decide_eq_false in Ht.
    + intros [[->|(t & -> & Ht)]|Hw]; [by right | right | by left].
      by apply negb_true_iff, bool_decide_eq_false.
  - intros Hmode t -> Ht. by apply Refiner_init_display.
Qed.

(** ** [FullRelaxer.__init__]: the schedule of iteration caps *)

Lemma to_nat_quot_div (m : Z) : Z.to_nat (Z.quot m 20) = Z.to_nat (m / 20).
Proof.
  destruct (Z.le_gt_cases 0 m) as [Hm|Hm].
  - by rewrite Z.quot_div_nonneg by lia.
  - assert (m / 20 < 0) by (apply Z.div_lt_upper_bound; lia).
    assert (0 <= Z.quot (- m) 20) as Hq by (apply Z.quot_pos; lia).
    rewrite Z.quot_opp_l in Hq by lia. lia.
Qed.

(** C5. The schedule is [num_rough_iter] entries (4 unless [rough] is
    given) equal to 2, or to 3 when the lower-cased [geom_method] is
    [tpsd], followed by [floor(geom_max_iter / 20)] entries equal to 20. *)
Theorem geom_max_iter_list_spec (rough : option Z) (geom_method : option string)
    (geom_max_iter : Z) :
  let num_rough_iter := default 4 rough in
  let rough_iter :=
    if bool_decide (Py.lower <$> geom_method = Some "tpsd") then 3 else 2 in
  Compute.geom_max_iter_list rough geom_method geom_max_iter
  = replicate (Z.to_nat num_rough_iter) rough_iter
    ++ replicate (Z.to_nat (geom_max_iter / 20)) 20.
Proof.
  intros num_rough_iter rough_iter.
  unfold Compute.geom_max_iter_list, Compute.list_mul, Compute.int_truediv.
  rewrite to_nat_quot_div. do 2 f_equal.
  subst rough_iter. destruct geom_method as [m|]; simpl; [|done].
  destruct (String.eqb_spec (Py.lower m) "tpsd") as [->|Hne].
  - by rewrite bool_decide_eq_true_2.
  - rewrite bool_decide_eq_false_2; [done | congruence].
Qed.

(** ** [Spatula.struct2db]: the quality score *)

Lemma quality_loop_spec (pot : gmap string string) (stoich : list (string * Z))
    (q : Z) :
  Spatula.quality_loop pot stoich q
  = if Spatula.covered pot stoich then q - Spatula.count_generic pot stoich
    else 0.
Proof.
  revert q. unfold Spatula.count_generic.
  induction stoich as [|elem rest IH]; intros q; simpl.
  - unfold Spatula.covered. simpl. lia.
  - unfold Spatula.covered in *. simpl.
    rewrite filter_cons.
    assert (Spatula.generic pot elem
            = match pot !! elem.1 with
              | Some p => Py.contains "OTF" (Py.upper p)
              | None => false
              end) as Hg by done.
    destruct (pot !! elem.1) as [p|] eqn:Hp; simpl.
    + destruct (Py.contains "OTF" (Py.upper p)) eqn:Hotf.
      * rewrite decide_True by done. rewrite IH.
        destruct (forallb _ rest); [|done]. simpl length. lia.
      * rewrite decide_False by congruence. by rewrite IH.
    + done.
Qed.

Lemma covered_iff (pot : gmap string string) (stoich : list (string * Z)) :
  Spatula.covered pot stoich = true
  ↔ ∀ elem, elem ∈ stoich → is_Some (pot !! elem.1).
Proof.
  unfold Spatula.covered. rewrite forallb_forall.
  split; intros H elem Hin.
  - apply list_elem_of_In, H in Hin. by apply bool_decide_eq_true in Hin.
  - apply bool_decide_eq_true, H. by apply list_elem_of_In.
Qed.

Lemma struct2db_stored (words : string * string) (tag_dict : option (list string))
    (repo : list Spatula.document) (struct : Spatula.document) :
  ∃ stored,
    Spatula.struct2db words tag_dict repo struct = (repo ++ [stored], 1)
    ∧ Spatula.quality stored
      = Some match Spatula.species_pot struct with
             | None => 0
             | Some pot =>
                 if Spatula.covered pot (Spatula.stoichiometry struct)
                 then 5 - Spatula.count_generic pot (Spatula.stoichiometry struct)
                 else 0
             end.
Proof.
  eexists. split; [reflexivity |]. simpl.
  destruct (Spatula.species_pot struct) as [pot|]; [|done].
  by rewrite quality_loop_spec.
Qed.

(** C6. The document stored by [struct2db] has quality 0 when
    [species_pot] is absent or lacks an entry for some element of the
    stoichiometry; otherwise its quality is 5 minus the number of
    stoichiometry elements whose pseudopotential is generic. *)
Theorem struct2db_quality (words : string * string)
    (tag_dict : option (list string)) (repo : list Spatula.document)
    (struct : Spatula.document) :
  ∃ stored,
    Spatula.struct2db words tag_dict repo struct = (repo ++ [stored], 1)
    ∧ (Spatula.species_pot struct = None → Spatula.quality stored = Some 0)
    ∧ (∀ pot elem, Spatula.species_pot struct = Some pot →
         elem ∈ Spatula.stoichiometry struct → pot !! elem.1 = None →
         Spatula.quality stored = Some 0)
    ∧ (∀ pot, Spatula.species_pot struct = Some pot →
         (∀ elem, elem ∈ Spatula.stoichiometry struct → is_Some (pot !! elem.1)) →
         Spatula.quality stored
         = Some (5 - Spatula.count_generic pot (Spatula.stoichiometry struct))).
Proof.
  destruct (struct2db_stored words tag_dict repo struct) as (stored & Hs & Hq).
  exists stored. split; [done |]. rewrite Hq. split; [|split].
  - by intros ->.
  - intros pot elem -> Hin Hnone.
    destruct (Spatula.covered pot _) eqn:Hc; [|done].
    rewrite covered_iff in Hc. apply Hc in Hin as [? ?]. congruence.
  - intros pot -> Hall. apply covered_iff in Hall. by rewrite Hall.
Qed.

(** C10. When [species_pot] covers the stoichiometry the stored quality is
    5 minus the number of elements with a generic pseudopotential, which is
    not bounded below by zero: six such elements give -1. *)
Theorem struct2db_quality_negative :
  (∀ words tag_dict repo struct pot,
     Spatula.species_pot struct = Some pot →
     Spatula.covered pot (Spatula.stoichiometry struct) = true →
     ∃ stored,
       Spatula.struct2db words tag_dict repo struct = (repo ++ [stored], 1)
       ∧ Spatula.quality stored
         = Some (5 - Spatula.count_generic pot (Spatula.stoichiometry struct)))
  ∧ (∃ stored,
       Spatula.struct2db ("lazy", "dog") None [] Spatula.six_generic = ([stored], 1)
       ∧ Spatula.quality stored = Some (-1)).
Proof.
  split.
  - intros words tag_dict repo struct pot Hpot Hc.
    destruct (struct2db_stored words tag_dict repo struct) as (stored & Hs & Hq).
    exists stored. split; [done |]. by rewrite Hq, Hpot, Hc.
  - eexists. split; [reflexivity |]. by vm_compute.
Qed.

(** ** [BatchRun.spawn]: the error raised by the parent *)

Lemma collect_reported (queue : list (nat * Batch.payload))
    (errors : list (nat * Batch.exn)) :
  Batch.collect (length queue) queue errors
  = Some (errors ++ Batch.reported queue).
Proof.
  revert errors. induction queue as [|[proc_id pl] queue IH]; intros errors; simpl.
  - by rewrite app_nil_r.
  - rewrite IH. unfold Batch.reported. simpl.
    destruct pl as [n|e]; simpl; [done | by rewrite <- app_assoc].
Qed.

Lemma collect_take (nprocs : nat) (queue : list (nat * Batch.payload))
    (errors : list (nat * Batch.exn)) :
  (nprocs <= length queue)%nat →
  Batch.collect nprocs queue errors
  = Some (errors ++ Batch.reported (take nprocs queue)).
Proof.
  revert queue errors. induction nprocs as [|n IH]; intros queue errors Hlen.
  - simpl. by rewrite app_nil_r.
  - destruct queue as [|[proc_id pl] queue]; simpl in *; [lia |].
    rewrite IH by lia. unfold Batch.reported. simpl.
    destruct pl as [c|e]; simpl; [done | by rewrite <- app_assoc].
Qed.

Lemma collect_blocks (nprocs : nat) (queue : list (nat * Batch.payload))
    (errors : list (nat * Batch.exn)) :
  (length queue < nprocs)%nat → Batch.collect nprocs queue errors = None.
Proof.
  revert queue errors. induction nprocs as [|n IH]; intros queue errors Hlen;
    [lia |].
  destruct queue as [|result queue]; simpl in *; [done |].
  apply IH. lia.
Qed.

Lemma foldl_error_message (errors : list (nat * Batch.exn)) (msg : string) :
  foldl (λ msg error,
           msg +:+ ("Process " +:+ pretty error.1 +:+ " raised error "
                    +:+ Batch.emsg error.2 +:+ ". "))
        msg errors
  = msg +:+ Py.join "" (Batch.describe <$> errors).
Proof.
  revert msg. induction errors as [|error errors IH]; intros msg.
  - simpl. by rewrite append_nil_r.
  - rewrite fmap_cons, join_empty_cons. simpl foldl.
    by rewrite IH, append_assoc.
Qed.

Lemma error_message_join (errors : list (nat * Batch.exn)) :
  Batch.error_message errors = Py.join "" (Batch.describe <$> errors).
Proof. unfold Batch.error_message. by rewrite foldl_error_message. Qed.

(** The set of the types has one element exactly when one type is common
    to every entry of a list that is not empty. *)
Lemma size_types_1 (types : list string) :
  size (list_to_set types : gset string) = 1%nat
  ↔ ∃ t, t ∈ types ∧ ∀ t', t' ∈ types → t' = t.
Proof.
  split.
  - intros Hsize. apply size_1_elem_of in Hsize as [t Ht].
    exists t. split.
    + apply (elem_of_list_to_set (C := gset string)). rewrite Ht. set_solver.
    + intros t' Hin.
      apply (elem_of_list_to_set (C := gset string)) in Hin.
      rewrite Ht in Hin. set_solver.
  - intros (t & Hin & Hall).
    assert ((list_to_set types : gset string) = {[t]}) as ->.
    { apply set_eq. intros t'. rewrite elem_of_list_to_set, elem_of_singleton.
      split; [by apply Hall | by intros ->]. }
    apply size_singleton.
Qed.

(** The error that [spawn] raises. When every worker puts a result on the
    queue and one of the results collected is an exception, [spawn] raises
    one error after the workers are joined and terminated: [BundledErrors]
    with the concatenation of the descriptions of the failures, in arrival
    order, when the exceptions differ in type, and otherwise what the
    call of the common class with this description ends in. *)
Lemma spawn_raises_one_error (construct : string → string → Batch.exn)
    (procs : list bool) (queue : list (nat * Batch.payload)) :
  (length procs <= length queue)%nat →
  let errors := Batch.reported (take (length procs) queue) in
  let description := Py.join "" (Batch.describe <$> errors) in
  errors ≠ [] →
  ∃ err,
    Batch.spawn construct procs queue
    = Some (Batch.Raises err, (λ _, false) <$> procs)
    ∧ (∀ t, (∀ error, error ∈ errors → Batch.etype error.2 = t) →
         err = construct t description)
    ∧ ((∃ e1 e2, e1 ∈ errors ∧ e2 ∈ errors
                 ∧ Batch.etype e1.2 ≠ Batch.etype e2.2) →
         err = Batch.Exn "BundledErrors" description).
Proof.
  intros Hlen errors description Hne. subst description. unfold Batch.spawn.
  rewrite collect_take by done. simpl. fold errors.
  destruct errors as [|error0 errors'] eqn:Herrors; [done |].
  unfold Batch.try_block. rewrite error_message_join.
  case_bool_decide as Hsize.
  - eexists. split; [reflexivity |]. split.
    + intros t Hall. f_equal. apply Hall. by left.
    + intros (e1 & e2 & H1 & H2 & Hdiff). exfalso.
      apply size_types_1 in Hsize as (t & _ & Hall).
      apply Hdiff. transitivity t; [|symmetry]; apply Hall.
      * by apply (list_elem_of_fmap_2 (λ error, Batch.etype error.2)).
      * by apply (list_elem_of_fmap_2 (λ error, Batch.etype error.2)).
  - eexists. split; [reflexivity |]. split.
    + intros t Hall. exfalso. apply Hsize, size_types_1.
      exists t. split.
      * rewrite fmap_cons, elem_of_cons. left. symmetry.
        apply Hall. by left.
      * intros t' (error & -> & Hin)%list_elem_of_fmap. by apply Hall.
    + done.
Qed.

(** A worker that ends without a result on the queue leaves the parent
    waiting in [error_queue.get()]: nothing is raised. *)
Lemma spawn_blocks (construct : string → string → Batch.exn)
    (procs : list bool) (queue : list (nat * Batch.payload)) :
  (length queue < length procs)%nat → Batch.spawn construct procs queue = None.
Proof. intros Hlen. unfold Batch.spawn. by rewrite collect_blocks. Qed.

(** C7 at a failing input. Two workers report a [UnicodeDecodeError]: the
    class is called with the one description, its constructor raises
    [TypeError], and this is the error [spawn] raises, not an error of the
    workers' common type; the description of the failures is lost. *)
Lemma spawn_common_type_not_constructible :
  let queue :=
    [(1%nat, Batch.Raised (Batch.Exn "UnicodeDecodeError" "invalid start byte"));
     (0%nat, Batch.Raised (Batch.Exn "UnicodeDecodeError" "invalid start byte"))] in
  (∀ error, error ∈ Batch.reported queue
            → Batch.etype error.2 = "UnicodeDecodeError")
  ∧ Batch.spawn Batch.construct_builtin [true; false] queue
    = Some (Batch.Raises
              (Batch.Exn "TypeError"
                 "function takes exactly 5 arguments (1 given)"),
            [false; false]).
Proof.
  split; [| by vm_compute].
  intros error Hin.
  change (error ∈ [(1%nat, Batch.Exn "UnicodeDecodeError" "invalid start byte");
                   (0%nat, Batch.Exn "UnicodeDecodeError" "invalid start byte")])
    in Hin.
  rewrite !elem_of_cons, elem_of_nil in Hin. by destruct Hin as [->|[->|[]]].
Qed.

(** ** [hull_2d]: the guard of the division per unit of B *)

Lemma set_per_b_spec (one_minus_x_elem : list string) (doc : Hull.document) :
  (Hull.num_b one_minus_x_elem doc ≠ 0 → Hull.num_fu doc ≠ 0) →
  ∃ doc',
    Hull.set_per_b one_minus_x_elem doc = Some doc'
    ∧ (Hull.num_b one_minus_x_elem doc = 0 →
       Hull.enthalpy_per_b doc' = Some Hull.sentinel
       ∧ Hull.cell_volume_per_b doc' = Some Hull.sentinel)
    ∧ (Hull.num_b one_minus_x_elem doc ≠ 0 →
       let n := inject_Z (Hull.num_b one_minus_x_elem doc * Hull.num_fu doc) in
       Hull.enthalpy_per_b doc' = Some (Hull.enthalpy doc / n)%Q
       ∧ Hull.cell_volume_per_b doc' = Some (Hull.cell_volume doc / n)%Q).
Proof.
  intros Hfu. unfold Hull.set_per_b, Hull.truediv.
  destruct (Z.eqb_spec (Hull.num_b one_minus_x_elem doc) 0) as [Hb|Hb].
  - eexists. split; [reflexivity |]. by split.
  - specialize (Hfu Hb).
    destruct (Z.eqb_spec (Hull.num_b one_minus_x_elem doc * Hull.num_fu doc) 0)
      as [Hz|Hz]; [lia |].
    simpl. eexists. split; [reflexivity |]. by split.
Qed.

(** C9, as stated, fails: a document with one atom of B and [num_fu = 0]
    passes the guard and divides by zero. *)
Lemma hull_2d_zero_division :
  let doc := {| Hull.stoichiometry := [("Li", 1); ("P", 1)]; Hull.num_fu := 0;
                Hull.enthalpy := (-10)%Q; Hull.cell_volume := 20%Q;
                Hull.enthalpy_per_b := None; Hull.cell_volume_per_b := None |} in
  Hull.num_b ["P"] doc = 1 ∧ Hull.hull_2d false ["P"] [doc] = None.
Proof. by vm_compute. Qed.

(** C9, amended. In a binary hull, a document without atoms of B gets the
    sentinel 12345e5 in both per-B fields and is not divided; the other
    documents are divided by [num_b * num_fu], which is not zero as long
    as their [num_fu] is not zero, and then no division by zero occurs. *)
Theorem hull_2d_guarded (one_minus_x_elem : list string)
    (cursor : list Hull.document) :
  (∀ doc, doc ∈ cursor →
     Hull.num_b one_minus_x_elem doc ≠ 0 → Hull.num_fu doc ≠ 0) →
  ∃ cursor',
    Hull.hull_2d false one_minus_x_elem cursor = Some cursor'
    ∧ ∀ i doc, cursor !! i = Some doc →
        ∃ doc', cursor' !! i = Some doc'
          ∧ (Hull.num_b one_minus_x_elem doc = 0 →
             Hull.enthalpy_per_b doc' = Some Hull.sentinel
             ∧ Hull.cell_volume_per_b doc' = Some Hull.sentinel)
          ∧ (Hull.num_b one_minus_x_elem doc ≠ 0 →
             Hull.num_b one_minus_x_elem doc * Hull.num_fu doc ≠ 0
             ∧ Hull.enthalpy_per_b doc'
               = Some (Hull.enthalpy doc
                       / inject_Z (Hull.num_b one_minus_x_elem doc
                                   * Hull.num_fu doc))%Q
             ∧ Hull.cell_volume_per_b doc'
               = Some (Hull.cell_volume doc
                       / inject_Z (Hull.num_b one_minus_x_elem doc
                                   * Hull.num_fu doc))%Q).
Proof.
  intros Hfu. unfold Hull.hull_2d. simpl.
  assert (is_Some (mapM (Hull.set_per_b one_minus_x_elem) cursor)) as [cursor' Hc].
  { apply mapM_is_Some, Forall_forall. intros doc Hin.
    destruct (set_per_b_spec one_minus_x_elem doc (Hfu doc Hin)) as (doc' & Hd & _).
    exists doc'. exact Hd. }
  exists cursor'. split; [done |].
  intros i doc Hi. apply mapM_Some in Hc.
  destruct (Forall2_lookup_l _ _ _ _ _ Hc Hi) as (doc' & Hi' & Hset).
  exists doc'. split; [done |].
  assert (doc ∈ cursor) as Hin by (by eapply list_elem_of_lookup_2).
  destruct (set_per_b_spec one_minus_x_elem doc (Hfu doc Hin))
    as (doc'' & Hset' & Hz & Hnz).
  rewrite Hset in Hset'. injection Hset' as <-.
  split; [done |]. intros Hb. split; [|by apply Hnz].
  specialize (Hfu doc Hin Hb). lia.
Qed.

Lemma hull_2d_guarded_witness :
  let cursor :=
    [ {| Hull.stoichiometry := [("Li", 1); ("P", 2)]; Hull.num_fu := 3;
         Hull.enthalpy := (-12)%Q; Hull.cell_volume := 30%Q;
         Hull.enthalpy_per_b := None; Hull.cell_volume_per_b := None |};
      {| Hull.stoichiometry := [("Li", 1)]; Hull.num_fu := 0;
         Hull.enthalpy := (-2)%Q; Hull.cell_volume := 20%Q;
         Hull.enthalpy_per_b := None; Hull.cell_volume_per_b := None |} ] in
  ∃ cursor', Hull.hull_2d false ["P"] cursor = Some cursor'.
Proof.
  intros cursor.
  destruct (hull_2d_guarded ["P"] cursor) as (cursor' & Hc & _).
  - intros doc Hin Hb. subst cursor.
    apply elem_of_cons in Hin as [->|Hin]; [by vm_compute |].
    apply list_elem_of_singleton in Hin as ->. by vm_compute in Hb.
  - by exists cursor'.
Defined.

(** ** [reset_job_folder] *)

Lemma endswith_append (suffix s : string) : Batch.endswith suffix (s +:+ suffix) = true.
Proof.
  induction s as [|c s IH].
  - change ("" +:+ suffix) with suffix.
    destruct suffix; [done |].
    cbn [Batch.endswith]. by rewrite String.eqb_refl.
  - rewrite append_cons. cbn [Batch.endswith]. rewrite IH. apply orb_true_r.
Qed.



Lemma lookup_remove_if_file_ne (fs : gmap string Batch.node) (x n : string) :
  n ≠ x → Batch.remove_if_file fs x !! n = fs !! n.
Proof.
  intros Hne. unfold Batch.remove_if_file.
  destruct (Batch.isfile fs x); [|done]. by rewrite lookup_delete_ne.
Qed.
















(** ** [voltage_curve]: sorting, de-duplication and the voltages *)

Lemma fst_imap_pair (x : list Q) : (imap (λ i v, (v, i)) x).*1 = x.
Proof.
  apply list_eq. intros i.
  rewrite list_lookup_fmap, list_lookup_imap. by destruct (x !! i).
Qed.

Lemma sorted_pairs_perm (x : list Q) :
  Hull.sorted_pairs x ≡ₚ imap (λ i v, (v, i)) x.
Proof. symmetry. apply Hull.SortByValue.Permuted_sort. Qed.

Lemma np_sort_perm (x : list Q) : Hull.np_sort x ≡ₚ x.
Proof.
  unfold Hull.np_sort. rewrite sorted_pairs_perm. by rewrite fst_imap_pair.
Qed.

Lemma length_sorted_pairs (x : list Q) : length (Hull.sorted_pairs x) = length x.
Proof. by rewrite sorted_pairs_perm, length_imap. Qed.

Lemma sorted_pairs_lookup (x : list Q) (p : Q * nat) :
  p ∈ Hull.sorted_pairs x → x !! p.2 = Some p.1.
Proof.
  rewrite sorted_pairs_perm. intros (k & Hk)%list_elem_of_lookup_1.
  rewrite list_lookup_imap in Hk.
  destruct (x !! k) as [v|] eqn:Hv; simplify_eq/=. done.
Qed.

Lemma sorted_pairs_sorted (x : list Q) :
  StronglySorted (λ p q : Q * nat, (p.1 <= q.1)%Q) (Hull.sorted_pairs x).
Proof.
  assert (StronglySorted (λ p q, is_true (Hull.ByValue.leb p q))
            (Hull.sorted_pairs x)) as Hs.
  { apply Hull.SortByValue.StronglySorted_sort.
    intros p q r. unfold Hull.ByValue.leb, is_true.
    rewrite !Qle_bool_iff. apply Qle_trans. }
  induction Hs as [|p ps Hs IH Hall]; constructor; [done |].
  eapply Forall_impl; [exact Hall |].
  intros q Hq. by apply Qle_bool_iff.
Qed.

(** Selecting by the second components of pairs whose indices are valid. *)
Lemma take_idx_pairs {A} (arr : list A) (ps : list (Q * nat)) :
  (∀ p, p ∈ ps → (p.2 < length arr)%nat) →
  ∃ l, Hull.take_idx arr ps.*2 = Some l
       ∧ length l = length ps
       ∧ ∀ i p, ps !! i = Some p → l !! i = arr !! p.2.
Proof.
  intros Hidx. unfold Hull.take_idx.
  assert (is_Some (mapM (λ i, arr !! i) ps.*2)) as [l Hl].
  { apply mapM_is_Some, Forall_forall. intros i (p & -> & Hp)%list_elem_of_fmap.
    apply lookup_lt_is_Some_2. by apply Hidx. }
  exists l. split; [done |]. apply mapM_Some in Hl.
  split.
  - by rewrite <- (Forall2_length _ _ _ Hl), length_fmap.
  - intros i p Hp.
    assert (ps.*2 !! i = Some p.2) as Hp2 by (by rewrite list_lookup_fmap, Hp).
    destruct (Forall2_lookup_l _ _ _ _ _ Hl Hp2) as (a & Ha & Harr). congruence.
Qed.

(** What the mask of [np.unique] keeps of pairs sorted by value. *)
Lemma keep_changes_spec (ps : list (Q * nat)) (prev : option Q) :
  StronglySorted (λ p q : Q * nat, (p.1 <= q.1)%Q) ps →
  (∀ v p, prev = Some v → p ∈ ps → (v <= p.1)%Q) →
  StronglySorted (λ p q : Q * nat, (p.1 < q.1)%Q) (Hull.keep_changes prev ps)
  ∧ (∀ q, q ∈ Hull.keep_changes prev ps → q ∈ ps)
  ∧ (∀ v q, prev = Some v → q ∈ Hull.keep_changes prev ps → (v < q.1)%Q)
  ∧ (∀ p, p ∈ ps →
       (∃ v, prev = Some v ∧ (p.1 == v)%Q)
       ∨ ∃ q, q ∈ Hull.keep_changes prev ps ∧ (q.1 == p.1)%Q).
Proof.
  intros Hs. revert prev.
  induction Hs as [|p ps Hs IH Hall]; intros prev Hprev.
  { simpl. split; [constructor |]. split; [done |]. split.
    - intros v q _ Hq. by apply elem_of_nil in Hq.
    - intros p Hp. by apply elem_of_nil in Hp. }
  rewrite Forall_forall in Hall.
  destruct (IH (Some p.1)) as (IHs & IHsub & IHlt & IHcov).
  { intros v r [= <-] Hr. by apply Hall. }
  assert (∀ q, q ∈ Hull.keep_changes (Some p.1) ps → (p.1 < q.1)%Q) as Hp
    by (intros q; by apply IHlt).
  assert (StronglySorted (λ p q : Q * nat, (p.1 < q.1)%Q)
            (p :: Hull.keep_changes (Some p.1) ps)) as Hcons.
  { constructor; [done |]. by apply Forall_forall. }
  assert (∀ r, r ∈ p :: ps →
            (r.1 == p.1)%Q
            ∨ ∃ q, q ∈ Hull.keep_changes (Some p.1) ps ∧ (q.1 == r.1)%Q) as Hcov.
  { intros r [->|Hr]%elem_of_cons; [by left |].
    destruct (IHcov r Hr) as [(v & [= <-] & Heq)|Hq]; [by left | by right]. }
  simpl. destruct prev as [v|].
  - destruct (Qeq_bool p.1 v) eqn:Hv.
    + apply Qeq_bool_iff in Hv.
      split; [done |]. split; [intros q Hq; right; by apply IHsub |].
      split.
      * intros v' q [= <-] Hq. rewrite <- Hv. by apply Hp.
      * intros r Hr. destruct (Hcov r Hr) as [Heq|Hq]; [|by right].
        left. exists v. split; [done |]. by rewrite Heq.
    + apply Qeq_bool_neq in Hv.
      assert (v < p.1)%Q as Hvp.
      { apply Qlt_leneq. split; [apply (Hprev v p eq_refl); by left |].
        intros Heq. apply Hv. by symmetry. }
      split; [done |]. split.
      { intros q [->|Hq]%elem_of_cons; [by left | right; by apply IHsub]. }
      split.
      * intros v' q [= <-] [->|Hq]%elem_of_cons; [done |].
        eapply Qlt_trans; [exact Hvp | by apply Hp].
      * intros r Hr. right. destruct (Hcov r Hr) as [Heq|(q & Hq & Heq)].
        -- exists p. split; [by left | by symmetry].
        -- exists q. split; [by right | done].
  - split; [done |]. split.
    { intros q [->|Hq]%elem_of_cons; [by left | right; by apply IHsub]. }
    split; [done |].
    intros r Hr. right. destruct (Hcov r Hr) as [Heq|(q & Hq & Heq)].
    + exists p. split; [by left | by symmetry].
    + exists q. split; [by right | done].
Qed.

(** A list with two distinct members has at least two entries. *)
Lemma two_members_length {A} (l : list A) (a b : A) :
  a ∈ l → b ∈ l → a ≠ b → (2 <= length l)%nat.
Proof.
  intros Ha Hb Hne. destruct l as [|x [|y l]]; simpl; [| |lia].
  - by apply elem_of_nil in Ha.
  - apply list_elem_of_singleton in Ha, Hb. congruence.
Qed.

(** The arrays of [voltage_curve] exist when there is one ion count per
    structure, and each of their columns comes from one structure. *)
Lemma stable_arrays_spec (gni : list Hull.hull_doc → list Q)
    (cursor : list Hull.hull_doc) :
  length (gni cursor) = length cursor →
  ∃ Hs Qs,
    Hull.stable_arrays gni cursor
    = Some ((Hull.keep_changes None
               (Hull.sorted_pairs (Hull.np_sort (gni cursor)))).*1, Hs, Qs)
    ∧ length Hs
      = length (Hull.keep_changes None
                  (Hull.sorted_pairs (Hull.np_sort (gni cursor))))
    ∧ length Qs = length Hs
    ∧ ∀ i q,
        Hull.keep_changes None (Hull.sorted_pairs (Hull.np_sort (gni cursor)))
          !! i = Some q →
        ∃ j doc, cursor !! j = Some doc ∧ gni cursor !! j = Some q.1
                 ∧ Hs !! i = Some (Hull.hd_enthalpy_per_b doc)
                 ∧ Qs !! i = Some (Hull.gravimetric_capacity doc).
Proof.
  intros Hlen. set (x := gni cursor) in *.
  set (ps1 := Hull.sorted_pairs x).
  set (kept := Hull.keep_changes None (Hull.sorted_pairs (Hull.np_sort x))).
  assert (∀ p, p ∈ ps1 → (p.2 < length cursor)%nat) as Hidx1.
  { intros p Hp%sorted_pairs_lookup. rewrite <- Hlen.
    by eapply lookup_lt_Some. }
  destruct (take_idx_pairs (Hull.gravimetric_capacity <$> cursor) ps1)
    as (Q1 & HQ1 & HlQ1 & HQ1i); [by rewrite length_fmap |].
  destruct (take_idx_pairs (Hull.hd_enthalpy_per_b <$> cursor) ps1)
    as (H1 & HH1 & HlH1 & HH1i); [by rewrite length_fmap |].
  destruct (keep_changes_spec (Hull.sorted_pairs (Hull.np_sort x)) None)
    as (_ & Hsub & _ & _); [apply sorted_pairs_sorted | done |].
  fold kept in Hsub.
  assert (∀ q, q ∈ kept → Hull.np_sort x !! q.2 = Some q.1) as Hkept
    by (intros q Hq; by apply sorted_pairs_lookup, Hsub).
  assert (length (Hull.np_sort x) = length ps1) as Hls
    by (unfold Hull.np_sort; by rewrite length_fmap).
  assert (∀ q, q ∈ kept → (q.2 < length ps1)%nat) as Hidx2.
  { intros q Hq%Hkept. rewrite <- Hls. by eapply lookup_lt_Some. }
  destruct (take_idx_pairs H1 kept) as (H2 & HH2 & HlH2 & HH2i);
    [by rewrite HlH1 |].
  destruct (take_idx_pairs Q1 kept) as (Q2 & HQ2 & HlQ2 & HQ2i);
    [by rewrite HlQ1 |].
  exists H2, Q2. split; [|split; [done |]; split; [congruence |]].
  - unfold Hull.stable_arrays. fold x. unfold Hull.np_argsort. fold ps1.
    rewrite HQ1, HH1. simpl. unfold Hull.np_unique. fold kept.
    by rewrite HH2, HQ2.
  - intros i q Hq.
    assert (q ∈ kept) as Hin by (by eapply list_elem_of_lookup_2).
    pose proof (Hkept q Hin) as Hsorted. unfold Hull.np_sort in Hsorted.
    fold ps1 in Hsorted.
    apply list_lookup_fmap_Some in Hsorted as (p1 & Hv & Hp1).
    assert (p1 ∈ ps1) as Hin1 by (by eapply list_elem_of_lookup_2).
    destruct (lookup_lt_is_Some_2 cursor p1.2 (Hidx1 p1 Hin1)) as [doc Hdoc].
    exists p1.2, doc. split; [done |]. split.
    { rewrite Hv. by apply sorted_pairs_lookup. }
    rewrite (HH2i i q Hq), (HQ2i i q Hq), (HH1i _ p1 Hp1), (HQ1i _ p1 Hp1).
    by rewrite !list_lookup_fmap, Hdoc.
Qed.

Lemma index_of_nat {A} (l : list A) (i : nat) : Py.index l (Z.of_nat i) = l !! i.
Proof.
  unfold Py.index. destruct (Z.ltb_spec (Z.of_nat i) 0); [lia |].
  by rewrite Nat2Z.id.
Qed.

Lemma index_pred {A} (l : list A) (i : nat) :
  (1 <= i)%nat → Py.index l (Z.of_nat i - 1) = l !! (i - 1)%nat.
Proof.
  intros Hi. replace (Z.of_nat i - 1) with (Z.of_nat (i - 1)) by lia.
  apply index_of_nat.
Qed.

Lemma index_last {A} (l : list A) :
  (1 <= length l)%nat → Py.index l (-1) = l !! (length l - 1)%nat.
Proof.
  intros Hl. unfold Py.index. simpl.
  destruct (Z.leb_spec 0 (Z.of_nat (length l) + -1)); [|lia].
  f_equal. lia.
Qed.

Lemma voltage_at_step (Hs xs mu : list Q) (mu0 : Q) (i : nat) :
  (1 <= i)%nat →
  Hull.voltage_at Hs xs (mu0 :: mu) (Z.of_nat i) = Hull.step_voltage Hs xs mu0 i.
Proof.
  intros Hi. unfold Hull.voltage_at, Hull.step_voltage.
  by rewrite !index_of_nat, !index_pred.
Qed.

Lemma step_voltage_is_Some (Hs xs : list Q) (mu0 : Q) (i : nat) :
  (i < length Hs)%nat → (i < length xs)%nat →
  is_Some (Hull.step_voltage Hs xs mu0 i).
Proof.
  intros H1 H2. unfold Hull.step_voltage.
  destruct (lookup_lt_is_Some_2 Hs i H1) as [hi ->].
  destruct (lookup_lt_is_Some_2 Hs (i - 1)) as [hp ->]; [lia |].
  destruct (lookup_lt_is_Some_2 xs i H2) as [xi ->].
  destruct (lookup_lt_is_Some_2 xs (i - 1)) as [xp ->]; [lia |].
  by eexists.
Qed.

Lemma voltage_at_is_Some (Hs xs mu : list Q) (mu0 : Q) (i : nat) :
  (i < length Hs)%nat → (i < length xs)%nat →
  is_Some (Hull.voltage_at Hs xs (mu0 :: mu) (Z.of_nat i)).
Proof.
  intros H1 H2. destruct i as [|i].
  - unfold Hull.voltage_at. simpl.
    rewrite (index_of_nat Hs 0), (index_of_nat xs 0), !index_last by lia.
    destruct (lookup_lt_is_Some_2 Hs 0 H1) as [hi ->].
    destruct (lookup_lt_is_Some_2 Hs (length Hs - 1)) as [hp ->]; [lia |].
    destruct (lookup_lt_is_Some_2 xs 0 H2) as [xi ->].
    destruct (lookup_lt_is_Some_2 xs (length xs - 1)) as [xp ->]; [lia |].
    by eexists.
  - rewrite voltage_at_step by lia. by apply step_voltage_is_Some.
Qed.

(** The list of voltages for arrays of [n >= 2] compositions. *)
Lemma voltages_spec (Hs xs mu : list Q) (mu0 : Q) (n : nat) :
  length xs = n → length Hs = n → (2 <= n)%nat →
  ∃ V, Hull.voltages Hs xs (mu0 :: mu) = Some V
       ∧ length V = n
       ∧ V !! 0%nat = Hull.step_voltage Hs xs mu0 1
       ∧ (∀ i, (1 <= i < n - 1)%nat → V !! i = Hull.step_voltage Hs xs mu0 i)
       ∧ V !! (n - 1)%nat = Some 0%Q.
Proof.
  intros Hx Hh Hn. unfold Hull.voltages.
  assert (is_Some (mapM (Hull.voltage_at Hs xs (mu0 :: mu))
                        (Z.of_nat <$> seq 0 (length xs)))) as [V0 HV0].
  { apply mapM_is_Some, Forall_forall.
    intros z (i & -> & Hi)%list_elem_of_fmap. apply elem_of_seq in Hi.
    apply voltage_at_is_Some; lia. }
  rewrite HV0. simpl. apply mapM_Some in HV0.
  assert (length V0 = n) as HlV.
  { by rewrite <- (Forall2_length _ _ _ HV0), length_fmap, length_seq. }
  assert (∀ i, (1 <= i < n)%nat → V0 !! i = Hull.step_voltage Hs xs mu0 i) as HV0i.
  { intros i Hi.
    assert ((Z.of_nat <$> seq 0 (length xs)) !! i = Some (Z.of_nat i)) as Hz.
    { rewrite list_lookup_fmap, lookup_seq_lt by lia. done. }
    destruct (Forall2_lookup_l _ _ _ _ _ HV0 Hz) as (v & Hv & Hat).
    rewrite voltage_at_step in Hat by lia. congruence. }
  change (Py.index V0 1) with (Py.index V0 (Z.of_nat 1)).
  rewrite (index_of_nat V0 1), (HV0i 1%nat) by lia.
  destruct (step_voltage_is_Some Hs xs mu0 1) as [v1 Hv1]; [lia.. |].
  rewrite Hv1. simpl. unfold Py.setitem. simpl.
  destruct (Z.ltb_spec 0 (Z.of_nat (length V0))) as [_|]; [|lia]. simpl.
  rewrite length_insert.
  destruct (Z.leb_spec 0 (Z.of_nat (length V0) + -1)) as [_|]; [|lia].
  destruct (Z.ltb_spec (Z.of_nat (length V0) + -1) (Z.of_nat (length V0)))
    as [_|]; [|lia].
  simpl. eexists. split; [reflexivity |].
  replace (Z.to_nat (Z.of_nat (length V0) + -1)) with (n - 1)%nat by lia.
  rewrite !length_insert. split; [done |]. split; [|split].
  - rewrite list_lookup_insert_ne by lia.
    rewrite list_lookup_insert_eq by lia. done.
  - intros i Hi. rewrite !list_lookup_insert_ne by lia. apply HV0i. lia.
  - rewrite list_lookup_insert_eq; [done |]. rewrite length_insert. lia.
Qed.

Lemma StronglySorted_lookup_lt {A} (R : relation A) (l : list A) (i j : nat)
    (a b : A) :
  StronglySorted R l → (i < j)%nat → l !! i = Some a → l !! j = Some b → R a b.
Proof.
  intros Hs. revert i j. induction Hs as [|x l Hs IH Hall]; intros i j Hij Ha Hb.
  - by rewrite lookup_nil in Ha.
  - destruct j as [|j]; [lia |]. simpl in Hb. destruct i as [|i].
    + simpl in Ha. injection Ha as ->. rewrite Forall_forall in Hall.
      apply Hall. by eapply list_elem_of_lookup_2.
    + simpl in Ha. apply (IH i j); [lia | done..].
Qed.

(** C4. In the binary case, for a cursor with one ion count per structure
    and at least two distinct counts, [voltage_curve] stores the counts
    sorted and without duplicates, each with the enthalpy per B and the
    capacity of one structure that has this count; the voltage at an
    interior index [i] is
    [-(enthalpy_per_b[i] - enthalpy_per_b[i-1]) / (x[i] - x[i-1]) + mu],
    with a divisor that is not zero; the first voltage is the one computed
    for the second point and the last voltage is 0. *)
Theorem voltage_curve_spec (gni : list Hull.hull_doc → list Q) (mu0 : Q)
    (mu : list Q) (cursor : list Hull.hull_doc) :
  length (gni cursor) = length cursor →
  (∃ a b, a ∈ gni cursor ∧ b ∈ gni cursor ∧ ¬ (a == b)%Q) →
  ∃ V Qs xs Hs n,
    Hull.stable_arrays gni cursor = Some (xs, Hs, Qs)
    ∧ Hull.voltage_curve gni (mu0 :: mu) cursor = Some (V, Qs, xs)
    ∧ (2 <= n)%nat
    ∧ length xs = n ∧ length Hs = n ∧ length Qs = n ∧ length V = n
    ∧ StronglySorted Qlt xs
    ∧ (∀ a, a ∈ gni cursor → ∃ b, b ∈ xs ∧ (b == a)%Q)
    ∧ (∀ i xi, xs !! i = Some xi →
         ∃ j doc, cursor !! j = Some doc ∧ gni cursor !! j = Some xi
                  ∧ Hs !! i = Some (Hull.hd_enthalpy_per_b doc)
                  ∧ Qs !! i = Some (Hull.gravimetric_capacity doc))
    ∧ V !! 0%nat = Hull.step_voltage Hs xs mu0 1
    ∧ (∀ i, (1 <= i < n - 1)%nat → V !! i = Hull.step_voltage Hs xs mu0 i)
    ∧ V !! (n - 1)%nat = Some 0%Q
    ∧ (∀ i, (1 <= i < n)%nat →
         ∃ v xi xp, Hull.step_voltage Hs xs mu0 i = Some v
                    ∧ xs !! i = Some xi ∧ xs !! (i - 1)%nat = Some xp
                    ∧ ¬ (xi - xp == 0)%Q).
Proof.
  intros Hlen (a & b & Ha & Hb & Hab).
  destruct (stable_arrays_spec gni cursor Hlen) as (Hs & Qs & Hst & HlH & HlQ & Hcols).
  set (ps2 := Hull.sorted_pairs (Hull.np_sort (gni cursor))) in *.
  set (kept := Hull.keep_changes None ps2) in *.
  destruct (keep_changes_spec ps2 None) as (Hsorted & Hsub & _ & Hcov);
    [apply sorted_pairs_sorted | done |].
  fold kept in Hsorted, Hsub, Hcov.
  assert (∀ c, c ∈ gni cursor → ∃ q, q ∈ kept ∧ (q.1 == c)%Q) as Hcover.
  { intros c Hc.
    assert (c ∈ ps2.*1) as (p2 & -> & Hp2)%list_elem_of_fmap.
    { unfold ps2. fold (Hull.np_sort (Hull.np_sort (gni cursor))).
      by rewrite !np_sort_perm. }
    destruct (Hcov p2 Hp2) as [(v & [=] & _)|Hq]; done. }
  assert (StronglySorted Qlt kept.*1) as Hxs.
  { eapply StronglySorted_fmap; [|exact Hsorted]. done. }
  assert (2 <= length kept)%nat as Hn.
  { destruct (Hcover a Ha) as (qa & Hqa & Hqa').
    destruct (Hcover b Hb) as (qb & Hqb & Hqb').
    apply (two_members_length kept qa qb); [done.. |].
    intros ->. apply Hab. by rewrite <- Hqa', <- Hqb'. }
  destruct (voltages_spec Hs kept.*1 mu mu0 (length kept))
    as (V & HV & HlV & HV0 & HVi & HVn); [by rewrite length_fmap | done.. |].
  exists V, Qs, kept.*1, Hs, (length kept).
  split; [done |]. split.
  { unfold Hull.voltage_curve. rewrite Hst. simpl. by rewrite HV. }
  split; [done |]. split; [by rewrite length_fmap |].
  split; [done |]. split; [congruence |]. split; [done |]. split; [done |].
  split.
  { intros c Hc. destruct (Hcover c Hc) as (q & Hq & Heq).
    exists q.1. split; [by apply list_elem_of_fmap_2 | done]. }
  split.
  { intros i xi (q & -> & Hq)%list_lookup_fmap_Some. by apply Hcols. }
  split; [done |]. split; [done |]. split; [done |].
  intros i Hi.
  destruct (step_voltage_is_Some Hs kept.*1 mu0 i) as [v Hv];
    [lia | rewrite length_fmap; lia |].
  destruct (lookup_lt_is_Some_2 kept.*1 i) as [xi Hxi];
    [rewrite length_fmap; lia |].
  destruct (lookup_lt_is_Some_2 kept.*1 (i - 1)) as [xp Hxp];
    [rewrite length_fmap; lia |].
  exists v, xi, xp. split; [done |]. split; [done |]. split; [done |].
  assert (xp < xi)%Q as Hlt.
  { apply (StronglySorted_lookup_lt Qlt kept.*1 (i - 1) i); [done | lia | done..]. }
  intros Hz. apply (Qlt_not_eq _ _ Hlt). symmetry.
  apply Qplus_inj_r with (z := (- xp)%Q). rewrite Qplus_opp_r. exact Hz.
Qed.

Lemma voltage_curve_spec_witness :
  ∃ V Qs xs,
    Hull.voltage_curve Hull.example_counts [(-1)%Q] Hull.example_cursor = Some (V, Qs, xs)
    ∧ length V = 3%nat
    ∧ StronglySorted Qlt xs.
Proof.
  destruct (voltage_curve_spec Hull.example_counts (-1)%Q [] Hull.example_cursor)
    as (V & Qs & xs & Hs & n & Hst & Hv & _ & Hn & _ & _ & HlV & Hsorted & _).
  - reflexivity.
  - exists (600 / 300)%Q, (0 / 300)%Q. split; [|split].
    + apply list_elem_of_here.
    + apply list_elem_of_further, list_elem_of_here.
    + by vm_compute.
  - exists V, Qs, xs. split; [exact Hv |]. split; [|exact Hsorted].
    vm_compute in Hst. injection Hst as <- _ _. by rewrite HlV, <- Hn.
Defined.

(** ** [calc_mp_spacing] *)

Section CalcMpSpacing.

Local Open Scope R_scope.


Lemma max_step_ge (a b : R) :
  a <= CellUtils.max_step a b ∧ b <= CellUtils.max_step a b.
Proof. unfold CellUtils.max_step. destruct (Rlt_dec a b); lra. Qed.







(** *** Rounding to a nearest integer *)







(** *** The computed spacing against the exact one *)












End CalcMpSpacing.


(** ** The results at concrete inputs *)

Lemma Refiner_init_fatal_witness :
  Refine.Refiner_init (@None unit) (Some "sym") "verbose"
  = Refine.Validated "display" "sym"
      ["Mode not understood, defaulting to " +:+ Refine.dquote
         +:+ "display" +:+ Refine.dquote +:+ "."].
Proof.
  apply (proj2 (Refiner_init_fatal (@None unit) (Some "sym") "verbose")).
  - unfold Refine.possible_modes. set_solver.
  - reflexivity.
  - unfold Refine.possible_tasks. set_solver.
Defined.

Lemma struct2db_quality_witness :
  let pot : gmap string string :=
    list_to_map [("Li", "1|1.2|10|15|20|10U:20(qc=6)[OTF]"); ("P", "P_00PBE.usp")] in
  let struct :=
    {| Spatula.text_id := None; Spatula.tags := None; Spatula.quality := None;
       Spatula.species_pot := Some pot;
       Spatula.stoichiometry := [("Li", 3); ("P", 1)] |} in
  ∃ stored,
    Spatula.struct2db ("quick", "fox") None [] struct = ([stored], 1)
    ∧ Spatula.quality stored = Some 4.
Proof.
  intros pot struct.
  destruct (struct2db_quality ("quick", "fox") None [] struct)
    as (stored & Hs & _ & _ & Hq).
  exists stored. split; [exact Hs |].
  rewrite (Hq pot eq_refl); [by vm_compute |].
  intros elem Hin. simpl in Hin.
  apply elem_of_cons in Hin as [->|Hin]; [vm_compute; by eexists |].
  apply list_elem_of_singleton in Hin as ->. vm_compute. by eexists.
Defined.

Lemma struct2db_quality_negative_witness :
  ∃ stored,
    Spatula.struct2db ("lazy", "dog") None [] Spatula.six_generic = ([stored], 1)
    ∧ Spatula.quality stored = Some (-1).
Proof.
  destruct (proj1 struct2db_quality_negative ("lazy", "dog") None []
              Spatula.six_generic
              (list_to_map [("Li", "2|1.2|10|12|14|10:20(qc=6)[OTF]");
                            ("La", "OTF"); ("Zr", "OTF"); ("O", "OTF");
                            ("Nb", "OTF"); ("Ta", "OTF")]))
    as (stored & Hs & Hq); [reflexivity | by vm_compute |].
  exists stored. split; [exact Hs |]. rewrite Hq. by vm_compute.
Defined.


(** * Further properties *)

(** ** [hull_2d]: the number of B atoms *)

Lemma sum_alter_add (v : list Z) (i : nat) (x : Z) :
  (i < length v)%nat →
  foldr Z.add 0 (alter (λ n, n + x) i v) = foldr Z.add 0 v + x.
Proof.
  revert i. induction v as [|n v IH]; intros i Hi; simpl in *; [lia |].
  destruct i as [|i]; simpl; [lia |].
  specialize (IH i ltac:(lia)). unfold alter in IH. lia.
Qed.

(** The inner loop over [enumerate(one_minus_x_elem)], from offset [k]. *)
Lemma inner_loop_sum (elem : string * Z) (l : list string) (k : nat)
    (v : list Z) :
  (k + length l <= length v)%nat →
  let v' :=
    foldl (λ nums_b '(chem_pot_ind, chem_pot),
             if bool_decide (elem.1 = chem_pot)
             then alter (λ n, n + elem.2) chem_pot_ind nums_b
             else nums_b)
          v (imap (λ i c, ((k + i)%nat, c)) l) in
  length v' = length v
  ∧ foldr Z.add 0 v'
    = foldr Z.add 0 v
      + elem.2 * Z.of_nat (length (filter (λ c, c = elem.1) l)).
Proof.
  revert k v. induction l as [|c l IH]; intros k v Hk; simpl in *.
  - split; [done | lia].
  - rewrite (imap_ext _ (λ i c, ((S k + i)%nat, c))) by (intros; simpl; f_equal; lia).
    rewrite filter_cons. rewrite Nat.add_0_r.
    case_bool_decide as Hc.
    + destruct (IH (S k) (alter (λ n, n + elem.2) k v)) as [Hl Hs];
        [rewrite length_alter; lia |].
      rewrite Hl, Hs, length_alter, sum_alter_add by lia.
      rewrite decide_True by done. simpl length. split; [done | lia].
    + destruct (IH (S k) v) as [Hl Hs]; [lia |].
      rewrite Hl, Hs. rewrite decide_False by (intros ->; done).
      done.
Qed.

Lemma inner_loop_sum_0 (elem : string * Z) (l : list string) (v : list Z) :
  (length l <= length v)%nat →
  let v' :=
    foldl (λ nums_b '(chem_pot_ind, chem_pot),
             if bool_decide (elem.1 = chem_pot)
             then alter (λ n, n + elem.2) chem_pot_ind nums_b
             else nums_b)
          v (imap pair l) in
  length v' = length v
  ∧ foldr Z.add 0 v'
    = foldr Z.add 0 v
      + elem.2 * Z.of_nat (length (filter (λ c, c = elem.1) l)).
Proof. intros Hl. exact (inner_loop_sum elem l 0 v Hl). Qed.

Lemma nums_b_sum (one_minus_x_elem : list string) (stoich : list (string * Z))
    (v : list Z) :
  length v = length one_minus_x_elem →
  foldr Z.add 0
    (foldl (λ nums_b elem,
              foldl (λ nums_b '(chem_pot_ind, chem_pot),
                       if bool_decide (elem.1 = chem_pot)
                       then alter (λ n, n + elem.2) chem_pot_ind nums_b
                       else nums_b)
                    nums_b (imap pair one_minus_x_elem))
           v stoich)
  = foldr Z.add 0 v
    + foldr Z.add 0
        ((λ elem : string * Z,
            elem.2 * Z.of_nat (length (filter (λ c, c = elem.1)
                                              one_minus_x_elem))) <$> stoich).
Proof.
  revert v. induction stoich as [|elem stoich IH]; intros v Hv.
  - simpl. lia.
  - rewrite fmap_cons. cbn [foldl foldr].
    destruct (inner_loop_sum_0 elem one_minus_x_elem v) as [Hl Hs]; [lia |].
    rewrite IH by congruence. rewrite Hs. lia.
Qed.

(** X1. [num_b] is the number of atoms of the B elements: every entry of
    the stoichiometry adds its count once for each occurrence of its
    symbol among the B elements, so for B elements without repetition it
    is the sum of the counts of the entries whose symbol is a B element. *)
Theorem num_b_counts_b_atoms (one_minus_x_elem : list string)
    (doc : Hull.document) :
  Hull.num_b one_minus_x_elem doc
  = foldr Z.add 0
      ((λ elem : string * Z,
          elem.2 * Z.of_nat (length (filter (λ c, c = elem.1)
                                            one_minus_x_elem)))
         <$> Hull.stoichiometry doc)
  ∧ (NoDup one_minus_x_elem →
     Hull.num_b one_minus_x_elem doc
     = foldr Z.add 0
         ((λ elem : string * Z,
             if bool_decide (elem.1 ∈ one_minus_x_elem) then elem.2 else 0)
            <$> Hull.stoichiometry doc)).
Proof.
  assert (Hull.num_b one_minus_x_elem doc
          = foldr Z.add 0
              ((λ elem : string * Z,
                  elem.2 * Z.of_nat (length (filter (λ c, c = elem.1)
                                                    one_minus_x_elem)))
                 <$> Hull.stoichiometry doc)) as Hgen.
  { unfold Hull.num_b, Hull.nums_b. rewrite nums_b_sum by apply length_replicate.
    assert (∀ n, foldr Z.add 0 (replicate n 0) = 0) as ->
      by (intros n; induction n; simpl; lia).
    lia. }
  split; [done |]. intros Hnd. rewrite Hgen. f_equal.
  apply list_fmap_ext. intros _ elem _.
  assert (∀ l : list string, NoDup l →
            Z.of_nat (length (filter (λ c, c = elem.1) l))
            = if bool_decide (elem.1 ∈ l) then 1 else 0) as Hcount.
  { intros l Hl. induction Hl as [|c l Hc Hl IH]; [done |].
    rewrite filter_cons. destruct (decide (c = elem.1)) as [->|Hne].
    - rewrite bool_decide_eq_true_2 by (by left).
      rewrite (bool_decide_eq_false_2 _ Hc) in IH. simpl length. lia.
    - rewrite IH. apply (f_equal (λ b : bool, if b then 1 else 0)).
      apply bool_decide_ext. rewrite elem_of_cons. naive_solver. }
  rewrite Hcount by done. case_bool_decide; lia.
Qed.

Lemma num_b_counts_b_atoms_witness :
  Hull.num_b ["P"; "S"]
    {| Hull.stoichiometry := [("Li", 7); ("P", 3); ("S", 11)]; Hull.num_fu := 2;
       Hull.enthalpy := 0; Hull.cell_volume := 1;
       Hull.enthalpy_per_b := None; Hull.cell_volume_per_b := None |}
  = 14.
Proof.
  rewrite (proj2 (num_b_counts_b_atoms ["P"; "S"] _)); [reflexivity |].
  apply NoDup_cons. split; [set_solver |]. apply NoDup_singleton.
Defined.

(** ** [voltage_curve] with fewer than two distinct counts *)

Lemma stable_arrays_x (gni : list Hull.hull_doc → list Q)
    (cursor : list Hull.hull_doc) (x Hs Qs : list Q) :
  Hull.stable_arrays gni cursor = Some (x, Hs, Qs) →
  x = (Hull.keep_changes None
         (Hull.sorted_pairs (Hull.np_sort (gni cursor)))).*1.
Proof.
  unfold Hull.stable_arrays, Hull.np_unique. intros H.
  destruct (Hull.take_idx (Hull.gravimetric_capacity <$> cursor) _) as [Q1|];
    [|done].
  destruct (Hull.take_idx (Hull.hd_enthalpy_per_b <$> cursor) _) as [H1|];
    [|done].
  simpl in H.
  destruct (Hull.take_idx H1 _) as [H2|]; [|done]. simpl in H.
  destruct (Hull.take_idx Q1 _) as [Q2|]; [|done]. simpl in H.
  by injection H as <- _ _.
Qed.

Lemma voltages_short (Hs xs mu : list Q) :
  (length xs <= 1)%nat → Hull.voltages Hs xs mu = None.
Proof.
  intros Hl. unfold Hull.voltages.
  destruct xs as [|x0 [|x1 xs]]; simpl in Hl; [done | | lia].
  cbn. by destruct (Hull.voltage_at Hs [x0] mu (Z.of_nat 0)) as [v|].
Qed.

(** X2. When all the ion counts of the cursor are equal (in particular for
    an empty cursor or a single structure), the binary [voltage_curve]
    ends in an [IndexError]: it needs two distinct counts. *)
Theorem voltage_curve_needs_two_counts (gni : list Hull.hull_doc → list Q)
    (mu : list Q) (cursor : list Hull.hull_doc) :
  (∀ a b, a ∈ gni cursor → b ∈ gni cursor → (a == b)%Q) →
  Hull.voltage_curve gni mu cursor = None.
Proof.
  intros Heq. unfold Hull.voltage_curve.
  destruct (Hull.stable_arrays gni cursor) as [[[x Hs] Qs]|] eqn:Hst; [|done].
  simpl. rewrite voltages_short; [done |].
  rewrite (stable_arrays_x _ _ _ _ _ Hst), length_fmap.
  set (ps := Hull.sorted_pairs (Hull.np_sort (gni cursor))).
  destruct (keep_changes_spec ps None) as (Hsorted & Hsub & _ & _);
    [apply sorted_pairs_sorted | done |].
  destruct (Hull.keep_changes None ps) as [|p [|q kept]]; simpl; [lia.. |].
  exfalso.
  assert (∀ r, r ∈ p :: q :: kept → r.1 ∈ gni cursor) as Hin.
  { intros r Hr%Hsub. rewrite <- (np_sort_perm (gni cursor)).
    rewrite <- (np_sort_perm (Hull.np_sort (gni cursor))).
    unfold Hull.np_sort at 1. fold ps. by apply list_elem_of_fmap_2. }
  apply StronglySorted_inv in Hsorted as [_ Hall].
  apply Forall_inv in Hall.
  apply (Qlt_not_eq _ _ Hall), Heq; apply Hin.
  - by left.
  - right. by left.
Qed.

Lemma voltage_curve_needs_two_counts_witness :
  Hull.voltage_curve Hull.example_counts [(-1)%Q]
    [Hull.HullDoc 600 (-5); Hull.HullDoc 600 (-6)]%Q
  = None.
Proof.
  apply voltage_curve_needs_two_counts.
  intros a b Ha Hb. simpl in Ha, Hb.
  apply elem_of_cons in Ha as [->|Ha%list_elem_of_singleton];
    apply elem_of_cons in Hb as [->|Hb%list_elem_of_singleton];
    subst; reflexivity.
Defined.

(** ** Reciprocal lattices *)

Section Reciprocal.

Local Open Scope R_scope.





End Reciprocal.

(** ** [FullRelaxer]: the schedule and the loop of [relax] *)

Lemma sum_replicate (n : nat) (c : Z) :
  foldr Z.add 0 (replicate n c) = Z.of_nat n * c.
Proof. induction n as [|n IH]; [done |]. cbn [replicate foldr]. lia. Qed.

Lemma sum_app (l1 l2 : list Z) :
  foldr Z.add 0 (l1 ++ l2) = foldr Z.add 0 l1 + foldr Z.add 0 l2.
Proof. induction l1 as [|c l1 IH]; simpl; lia. Qed.

(** X6. For a non-negative [geom_max_iter] and a non-negative number of
    rough steps, the iteration caps of the schedule add up to
    [num_rough_iter * rough_iter + 20 * floor(geom_max_iter / 20)]: the
    fine steps never exceed [geom_max_iter] and fall short of it by less
    than 20, so a [geom_max_iter] below 20 gives no fine step at all.
    Every cap is 2, 3 or 20. *)
Theorem schedule_budget (rough : option Z) (geom_method : option string)
    (geom_max_iter : Z) :
  0 <= geom_max_iter → 0 <= default 4 rough →
  let sched := Compute.geom_max_iter_list rough geom_method geom_max_iter in
  let rough_iter :=
    if bool_decide (Py.lower <$> geom_method = Some "tpsd") then 3 else 2 in
  let fine := 20 * (geom_max_iter / 20) in
  foldr Z.add 0 sched = default 4 rough * rough_iter + fine
  ∧ fine <= geom_max_iter < fine + 20
  ∧ length sched = Z.to_nat (default 4 rough + geom_max_iter / 20)
  ∧ Forall (λ c, c = 2 ∨ c = 3 ∨ c = 20) sched.
Proof.
  intros Hm Hr sched rough_iter fine.
  assert (0 <= geom_max_iter / 20) as Hq by (apply Z.div_pos; lia).
  pose proof (Z.mul_div_le geom_max_iter 20 ltac:(lia)).
  pose proof (Z.mul_succ_div_gt geom_max_iter 20 ltac:(lia)).
  subst sched. unfold Compute.geom_max_iter_list, Compute.list_mul,
    Compute.int_truediv.
  rewrite to_nat_quot_div.
  assert ((match geom_method with
           | Some m => if (Py.lower m =? "tpsd")%string then 3 else 2
           | None => 2
           end) = rough_iter) as ->.
  { subst rough_iter. destruct geom_method as [m|]; simpl; [|done].
    destruct (String.eqb_spec (Py.lower m) "tpsd") as [->|Hne].
    - by rewrite bool_decide_eq_true_2.
    - rewrite bool_decide_eq_false_2; [done | congruence]. }
  assert ((match rough with Some r => r | None => 4 end) = default 4 rough)
    as -> by (by destruct rough).
  rewrite sum_app, !sum_replicate, length_app, !length_replicate.
  rewrite !Z2Nat.id by done.
  split; [subst fine; lia |]. split; [subst fine; lia |]. split; [lia |].
  apply Forall_app. split; apply Forall_replicate; [|by right; right].
  subst rough_iter. case_bool_decide; [right; by left | by left].
Qed.

Lemma schedule_budget_witness :
  foldr Z.add 0 (Compute.geom_max_iter_list None (Some "LBFGS") 110)
  = 4 * 2 + 20 * (110 / 20).
Proof.
  apply (schedule_budget None (Some "LBFGS") 110); simpl; lia.
Defined.

Lemma relax_loop_never_optimised (runs : nat → Compute.run) (sched : list Z)
    (len ind : nat) (spin : bool) :
  sched ≠ [] → len = (ind + length sched)%nat →
  (∀ i, (ind <= i < len)%nat → runs i = Compute.Scraped false false) →
  Compute.relax_loop runs len ind sched false spin
  = (imap (λ j c, (c, if Nat.eqb (ind + j) 0 then spin else false)) sched,
     Compute.Returns (Some false)).
Proof.
  revert ind spin. induction sched as [|c rest IH]; intros ind spin Hne Hlen Hruns;
    [done |].
  cbn [Compute.relax_loop]. rewrite (Hruns ind) by (simpl in Hlen; lia).
  cbn [andb negb]. rewrite imap_cons, Nat.add_0_r.
  destruct rest as [|c' rest'].
  - simpl in Hlen. replace (len - 1)%nat with ind by lia.
    by rewrite Nat.eqb_refl.
  - simpl in Hlen.
    destruct (Nat.eqb_spec ind (len - 1)) as [Heq|_]; [lia |].
    rewrite (IH (S ind)); [| done | simpl; lia | intros i Hi; apply Hruns; lia].
    f_equal. f_equal. apply imap_ext. intros j x _. simpl.
    replace (ind + S j)%nat with (S (ind + j)) by lia. done.
Qed.

(** X7. When no sub-run reports an optimised structure (and none crashes
    or raises), [relax] starts one sub-run for every entry of a non-empty
    schedule, each with its scheduled cap, only the first one with the
    initial spin, and returns [False]. *)
Theorem relax_never_optimised (runs : nat → Compute.run) (sched : list Z)
    (spin : bool) :
  sched ≠ [] →
  (∀ i, (i < length sched)%nat → runs i = Compute.Scraped false false) →
  Compute.relax runs sched spin
  = (imap (λ j c, (c, if Nat.eqb j 0 then spin else false)) sched,
     Compute.Returns (Some false)).
Proof.
  intros Hne Hruns. unfold Compute.relax.
  rewrite relax_loop_never_optimised; [done.. |].
  intros i Hi. apply Hruns. lia.
Qed.

Lemma relax_never_optimised_witness :
  Compute.relax (λ _, Compute.Scraped false false) [2; 2; 20] true
  = ([(2, true); (2, false); (20, false)], Compute.Returns (Some false)).
Proof.
  apply (relax_never_optimised (λ _, Compute.Scraped false false) [2; 2; 20]);
    done.
Defined.

Lemma relax_loop_success (runs : nat → Compute.run) (sched : list Z)
    (len ind : nat) (rerun spin : bool) (trace : list (Z * bool)) :
  Compute.relax_loop runs len ind sched rerun spin
  = (trace, Compute.Returns (Some true)) →
  (rerun = true → ∃ k, ind = S k ∧ runs k = Compute.Scraped true false) →
  ∃ i c, runs i = Compute.Scraped true false
         ∧ runs (S i) = Compute.Scraped true c
         ∧ (ind + length trace)%nat = S (S i)
         ∧ last trace = Some (2, false)
         ∧ (length trace <= length sched)%nat.
Proof.
  revert ind rerun spin trace.
  induction sched as [|num_iter rest IH]; intros ind rerun spin trace Hloop Hinv;
    [done |].
  cbn [Compute.relax_loop] in Hloop.
  destruct (runs ind) as [| | |optimised crashed] eqn:Hrun; try done.
  destruct rerun, optimised, crashed; cbn [andb negb] in Hloop;
    try (destruct (Nat.eqb ind (len - 1)); done);
    try done.
  - (* confirmation run: returns True *)
    injection Hloop as <-. destruct (Hinv eq_refl) as (k & -> & Hk).
    exists k, true. simpl. repeat split; try done; lia.
  - injection Hloop as <-. destruct (Hinv eq_refl) as (k & -> & Hk).
    exists k, false. simpl. repeat split; try done; lia.
  - (* a failed confirmation: the loop goes on without rerun *)
    destruct (Nat.eqb ind (len - 1)); [done |].
    destruct (Compute.relax_loop runs len (S ind) rest false _)
      as [trace' r] eqn:Hrest.
    injection Hloop as <- ->.
    destruct (IH _ _ _ _ Hrest) as (i & c & H1 & H2 & H3 & H4 & H5); [done |].
    exists i, c. simpl. repeat split; try done; try lia.
    destruct trace'; [simpl in H3; done | done].
  - (* first report of an optimised structure *)
    destruct (Compute.relax_loop runs len (S ind) rest true _)
      as [trace' r] eqn:Hrest.
    injection Hloop as <- ->.
    destruct (IH _ _ _ _ Hrest) as (i & c & H1 & H2 & H3 & H4 & H5);
      [intros _; by exists ind |].
    exists i, c. simpl. repeat split; try done; try lia.
    destruct trace'; [simpl in H4; done | done].
  - destruct (Nat.eqb ind (len - 1)); [done |].
    destruct (Compute.relax_loop runs len (S ind) rest false _)
      as [trace' r] eqn:Hrest.
    injection Hloop as <- ->.
    destruct (IH _ _ _ _ Hrest) as (i & c & H1 & H2 & H3 & H4 & H5); [done |].
    exists i, c. simpl. repeat split; try done; try lia.
    destruct trace'; [simpl in H4; done | done].
Qed.

(** X8. [relax] returns [True] only after two consecutive sub-runs that
    both report an optimised structure, the first one without a crash
    file: the second one is the last sub-run started, it is capped at 2
    iterations and runs without the initial spin. *)
Theorem relax_success_is_confirmed (runs : nat → Compute.run) (sched : list Z)
    (spin : bool) (trace : list (Z * bool)) :
  Compute.relax runs sched spin = (trace, Compute.Returns (Some true)) →
  ∃ i c, runs i = Compute.Scraped true false
         ∧ runs (S i) = Compute.Scraped true c
         ∧ length trace = S (S i)
         ∧ last trace = Some (2, false)
         ∧ (length trace <= length sched)%nat.
Proof.
  intros Hrelax.
  destruct (relax_loop_success runs sched (length sched) 0 false spin trace
              Hrelax) as (i & c & H1 & H2 & H3 & H4 & H5); [done |].
  exists i, c. repeat split; try done.
Qed.

Lemma relax_success_is_confirmed_witness :
  ∃ i c,
    (λ n, Compute.Scraped (Nat.leb 2 n) false) i = Compute.Scraped true false
    ∧ (λ n, Compute.Scraped (Nat.leb 2 n) false) (S i) = Compute.Scraped true c
    ∧ length [(2, true); (2, false); (2, false); (2, false)] = S (S i).
Proof.
  destruct (relax_success_is_confirmed
              (λ n, Compute.Scraped (Nat.leb 2 n) false) [2; 2; 2; 2; 20; 20]
              true [(2, true); (2, false); (2, false); (2, false)])
    as (i & c & H1 & H2 & H3 & _); [reflexivity |].
  exists i, c. split; [exact H1 |]. split; [exact H2 | exact H3].
Defined.

Lemma relax_loop_none (runs : nat → Compute.run) (sched : list Z)
    (len ind : nat) (rerun spin : bool) (trace : list (Z * bool)) :
  Compute.relax_loop runs len ind sched rerun spin
  = (trace, Compute.Returns None) →
  len = (ind + length sched)%nat →
  sched = []
  ∨ (length trace = length sched
     ∧ runs (len - 1)%nat = Compute.Scraped true false).
Proof.
  revert ind rerun spin trace.
  induction sched as [|num_iter rest IH]; intros ind rerun spin trace Hloop Hlen;
    [by left |].
  right. cbn [Compute.relax_loop] in Hloop. simpl in Hlen.
  destruct (runs ind) as [| | |optimised crashed] eqn:Hrun; try done.
  assert (∀ rerun' spin' trace' r,
            Compute.relax_loop runs len (S ind) rest rerun' spin' = (trace', r) →
            r = Compute.Returns None →
            (rest = [] → runs ind = Compute.Scraped true false) →
            length ((num_iter, spin') :: trace') = length (num_iter :: rest)
            ∧ runs (len - 1)%nat = Compute.Scraped true false) as Hstep.
  { intros rerun' spin' trace' r Hrest -> Hone.
    destruct (IH _ _ _ _ Hrest ltac:(lia)) as [->|[Hl Hr]].
    - simpl in Hrest. injection Hrest as <-. split; [done |].
      simpl in Hlen. replace (len - 1)%nat with ind by lia. by apply Hone.
    - split; [simpl; by rewrite Hl | done]. }
  destruct rerun, optimised, crashed; cbn [andb negb] in Hloop; try done;
    try (destruct (Nat.eqb_spec ind (len - 1)) as [Hlast|Hlast]; [done |]);
    try done;
    destruct (Compute.relax_loop runs len (S ind) rest _ _)
      as [trace' r] eqn:Hrest;
    injection Hloop as <- ->;
    destruct (Hstep _ _ _ _ Hrest eq_refl) as [Hl Hr];
    try (intros ->; simpl in Hlen; first [done | lia]);
    simpl in Hl; simpl; split; first [done | lia].
Qed.

Lemma relax_loop_first_optimised_last (runs : nat → Compute.run)
    (sched : list Z) (len ind : nat) (spin : bool) :
  sched ≠ [] → len = (ind + length sched)%nat →
  (∀ i, (ind <= i < len - 1)%nat → runs i = Compute.Scraped false false) →
  runs (len - 1)%nat = Compute.Scraped true false →
  Compute.relax_loop runs len ind sched false spin
  = (imap (λ j c, (c, if Nat.eqb (ind + j) 0 then spin else false)) sched,
     Compute.Returns None).
Proof.
  revert ind spin. induction sched as [|c rest IH];
    intros ind spin Hne Hlen Hruns Hlast; [done |].
  cbn [Compute.relax_loop]. rewrite imap_cons, Nat.add_0_r. simpl in Hlen.
  destruct rest as [|c' rest'].
  - simpl in Hlen. replace ind with (len - 1)%nat at 1 by lia.
    rewrite Hlast. by cbn.
  - simpl in Hlen. rewrite (Hruns ind) by lia. cbn [andb negb].
    destruct (Nat.eqb_spec ind (len - 1)) as [Heq|_]; [lia |].
    rewrite (IH (S ind));
      [| done | simpl; lia | intros i Hi; apply Hruns; lia | done].
    f_equal. f_equal. apply imap_ext. intros j x _. simpl.
    replace (ind + S j)%nat with (S (ind + j)) by lia. done.
Qed.

(** X9. [relax] ends without a return value ([None], neither success nor
    failure) only for an empty schedule, or after every scheduled sub-run
    was started and the last one reported an optimised structure without a
    crash file. *)
Theorem relax_none_only_at_end (runs : nat → Compute.run) (sched : list Z)
    (spin : bool) (trace : list (Z * bool)) :
  Compute.relax runs sched spin = (trace, Compute.Returns None) →
  sched = []
  ∨ (length trace = length sched
     ∧ runs (length sched - 1)%nat = Compute.Scraped true false).
Proof.
  intros Hrelax. by apply (relax_loop_none runs sched _ 0 false spin).
Qed.

Lemma relax_none_only_at_end_witness :
  [2; 2; 20] = []
  ∨ (length [(2, true); (2, false); (20, false)] = length [2; 2; 20]
     ∧ (λ n, Compute.Scraped (Nat.eqb n 2) false) (length [2; 2; 20] - 1)%nat
       = Compute.Scraped true false).
Proof.
  apply (relax_none_only_at_end
           (λ n, Compute.Scraped (Nat.eqb n 2) false) [2; 2; 20] true).
  reflexivity.
Defined.

(** X10. When no sub-run before the last scheduled one reports an
    optimised structure or a crash and the last one reports an optimised
    structure for the first time, [relax] starts every sub-run with its
    scheduled cap and returns [None]: the confirmation run is never made
    and the structure is reported neither relaxed nor failed. *)
Theorem relax_first_optimised_last (runs : nat → Compute.run) (sched : list Z)
    (spin : bool) :
  sched ≠ [] →
  (∀ i, (i < length sched - 1)%nat → runs i = Compute.Scraped false false) →
  runs (length sched - 1)%nat = Compute.Scraped true false →
  Compute.relax runs sched spin
  = (imap (λ j c, (c, if Nat.eqb j 0 then spin else false)) sched,
     Compute.Returns None).
Proof.
  intros Hne Hruns Hlast. unfold Compute.relax.
  rewrite relax_loop_first_optimised_last; [done.. | | done].
  intros i Hi. apply Hruns. lia.
Qed.

Lemma relax_first_optimised_last_witness :
  Compute.relax (λ n, Compute.Scraped (Nat.eqb n 2) false) [2; 2; 20] true
  = ([(2, true); (2, false); (20, false)], Compute.Returns None).
Proof.
  apply (relax_first_optimised_last
           (λ n, Compute.Scraped (Nat.eqb n 2) false) [2; 2; 20] true).
  - done.
  - intros i Hi. simpl in Hi. destruct i as [|[|i]]; [done | done | lia].
  - done.
Defined.

(** ** [BatchRun]: the jobs file and the worker's loop *)

Lemma prefix_append (a s : string) : String.prefix a (a +:+ s) = true.
Proof.
  induction a as [|c a IH]; [by destruct s |].
  rewrite append_cons. simpl. by destruct (Ascii.ascii_dec c c).
Qed.

Lemma prefix_split (a s : string) :
  String.prefix a s = true → ∃ suf, s = a +:+ suf.
Proof.
  revert s. induction a as [|c a IH]; intros s Hp; [by exists s |].
  destruct s as [|c' s]; [done |]. simpl in Hp.
  destruct (Ascii.ascii_dec c c') as [->|]; [| done].
  destruct (IH _ Hp) as [suf ->]. exists suf. by rewrite append_cons.
Qed.

Lemma contains_cons (sub : string) (c : ascii) (s : string) :
  Py.contains sub (String c s)
  = String.prefix sub (String c s) || Py.contains sub s.
Proof. reflexivity. Qed.

Lemma contains_split (sub s : string) :
  Py.contains sub s = true ↔ ∃ pre suf, s = pre +:+ sub +:+ suf.
Proof.
  split.
  - induction s as [|c s IH]; intros H.
    + destruct sub; [| done]. by exists "", "".
    + rewrite contains_cons in H. apply orb_true_iff in H as [H|H].
      * destruct (prefix_split _ _ H) as [suf ->]. by exists "", suf.
      * destruct (IH H) as (pre & suf & ->). exists (String c pre), suf.
        by rewrite append_cons.
  - intros (pre & suf & ->). induction pre as [|c pre IH].
    + change ("" +:+ sub +:+ suf) with (sub +:+ suf).
      destruct (sub +:+ suf) as [|c s] eqn:E.
      * by destruct sub.
      * by rewrite contains_cons, <- E, prefix_append.
    + by rewrite append_cons, contains_cons, IH, orb_true_r.
Qed.

Lemma one_line_cons (c : ascii) (s : string) :
  Batch.one_line (String c s) = true →
  Ascii.eqb c Batch.LF = false ∧ Ascii.eqb c Batch.CR = false
  ∧ Batch.one_line s = true.
Proof.
  simpl. rewrite !andb_true_iff, !negb_true_iff. tauto.
Qed.

Lemma universal_newlines_one_line (s t : string) :
  Batch.one_line s = true →
  Batch.universal_newlines (s +:+ String Batch.LF t)
  = s +:+ String Batch.LF (Batch.universal_newlines t).
Proof.
  induction s as [|c s IH]; intros Hs; [done |].
  apply one_line_cons in Hs as (_ & Hcr & Hs).
  rewrite !append_cons. cbn [Batch.universal_newlines]. rewrite Hcr.
  by rewrite IH.
Qed.

(** A complete line of the text is a line of what is read. *)
Lemma universal_newlines_line (name more : string) :
  Batch.one_line name = true →
  ∀ content, ∃ text,
    Batch.universal_newlines (content +:+ name +:+ String Batch.LF more)
    = text +:+ name +:+ String Batch.LF (Batch.universal_newlines more).
Proof.
  intros Hname content.
  remember (String.length content) as n eqn:Hn.
  revert content Hn. induction (lt_wf n) as [n _ IH]; intros content ->.
  destruct content as [|c rest].
  - exists "". change ("" +:+ name +:+ String Batch.LF more)
      with (name +:+ String Batch.LF more).
    by rewrite universal_newlines_one_line.
  - rewrite append_cons. cbn [Batch.universal_newlines].
    destruct (Ascii.eqb c Batch.CR) eqn:Hc.
    + destruct rest as [|c2 rest2].
      * change ("" +:+ name +:+ String Batch.LF more)
          with (name +:+ String Batch.LF more).
        destruct name as [|c2 name'].
        -- by exists "".
        -- rewrite append_cons.
           destruct (one_line_cons _ _ Hname) as (Hlf & _ & _). rewrite Hlf.
           rewrite <- append_cons, universal_newlines_one_line by done.
           by exists (String Batch.LF "").
      * rewrite append_cons. destruct (Ascii.eqb c2 Batch.LF).
        -- destruct (IH (String.length rest2) ltac:(simpl; lia) rest2 eq_refl)
             as [text ->].
           by exists (String Batch.LF text).
        -- rewrite <- append_cons.
           destruct (IH (String.length (String c2 rest2)) ltac:(simpl; lia)
                       (String c2 rest2) eq_refl) as [text ->].
           by exists (String Batch.LF text).
    + destruct (IH (String.length rest) ltac:(simpl; lia) rest eq_refl)
        as [text ->].
      by exists (String c text).
Qed.

Lemma splitlines_one_line (s more : string) :
  Batch.one_line s = true →
  Batch.splitlines (s +:+ String Batch.LF more)
  = (s +:+ String Batch.LF "") :: Batch.splitlines more.
Proof.
  induction s as [|c s IH]; intros Hs; [done |].
  apply one_line_cons in Hs as (Hlf & _ & Hs).
  rewrite !append_cons. cbn [Batch.splitlines]. by rewrite Hlf, IH.
Qed.

Lemma splitlines_line (name text more : string) :
  Batch.one_line name = true →
  ∃ lines pre,
    Batch.splitlines (text +:+ name +:+ String Batch.LF more)
    = lines ++ (pre +:+ name +:+ String Batch.LF "") :: Batch.splitlines more.
Proof.
  intros Hname. induction text as [|c text (lines & pre & IH)].
  - exists [], "". by apply splitlines_one_line.
  - rewrite append_cons. cbn [Batch.splitlines]. rewrite IH.
    destruct (Ascii.eqb c Batch.LF).
    + by exists (String c "" :: lines), pre.
    + destruct lines as [|line lines].
      * by exists [], (String c pre).
      * by exists (String c line :: lines), pre.
Qed.

Lemma check_jobs_file_line (fs : gmap string Batch.node)
    (content name more res : string) :
  fs !! "jobs.txt"
  = Some (Batch.File (content +:+ name +:+ String Batch.LF more)) →
  Batch.one_line name = true →
  Py.contains res name = true →
  Batch._check_jobs_file fs res = Some true.
Proof.
  intros Hfs Hname Hres. unfold Batch._check_jobs_file, Batch.readlines.
  rewrite Hfs. f_equal.
  destruct (universal_newlines_line name more Hname content) as [text ->].
  destruct (splitlines_line name text (Batch.universal_newlines more) Hname)
    as (lines & pre & ->).
  rewrite existsb_app. apply orb_true_iff. right.
  cbn [existsb]. apply orb_true_iff. left. apply contains_split.
  apply contains_split in Hres as (pre' & suf' & ->).
  exists (pre +:+ pre'), (suf' +:+ String Batch.LF "").
  by rewrite !append_assoc.
Qed.

(** X11. A name that stands in the jobs file on a line of its own is
    found by [_check_jobs_file], whatever else the file holds; so is every
    string the name contains, since the lines are searched for a substring
    and not compared. *)
Theorem check_jobs_file_finds_listed (fs : gmap string Batch.node)
    (content name more res : string) :
  fs !! "jobs.txt"
  = Some (Batch.File (content +:+ name +:+ String Batch.LF more)) →
  Batch.one_line name = true →
  Py.contains res name = true →
  Batch._check_jobs_file fs res = Some true.
Proof. apply check_jobs_file_line. Qed.

Lemma check_jobs_file_finds_listed_witness :
  Batch._check_jobs_file
    {["jobs.txt" := Batch.File ("Li.res" +:+ String Batch.LF ""
                                +:+ "LiAs.res" +:+ String Batch.LF "LiP.res")]}
    "As.res"
  = Some true.
Proof.
  apply (check_jobs_file_finds_listed _ ("Li.res" +:+ String Batch.LF "")
           "LiAs.res" "LiP.res" "As.res").
  - by rewrite lookup_singleton_eq.
  - reflexivity.
  - reflexivity.
Defined.

Lemma lock_not_jobs (res : string) : res +:+ ".lock" ≠ "jobs.txt".
Proof.
  intros Heq. pose proof (endswith_append ".lock" res) as H.
  by rewrite Heq in H.
Qed.

Lemma append_to_lookup_ne (fs fs' : gmap string Batch.node)
    (name text other : string) :
  Batch.append_to fs name text = inl fs' → other ≠ name →
  fs' !! other = fs !! other.
Proof.
  unfold Batch.append_to. intros H Hne.
  destruct (fs !! name) as [[content|]|]; [| done |];
    injection H as <-; by rewrite lookup_insert_ne.
Qed.

Lemma append_to_lookup_eq (fs fs' : gmap string Batch.node)
    (name text content : string) :
  Batch.append_to fs name text = inl fs' →
  fs !! name = Some (Batch.File content) →
  fs' !! name = Some (Batch.File (content +:+ text)).
Proof.
  unfold Batch.append_to. intros H Hfs. rewrite Hfs in H.
  injection H as <-. by rewrite lookup_insert_eq.
Qed.

Lemma append_to_fails (fs : gmap string Batch.node) (name text : string)
    (err : Batch.exn) :
  Batch.append_to fs name text = inr err → err = Batch.IsADirectoryError name.
Proof.
  unfold Batch.append_to. intros H.
  destruct (fs !! name) as [[content|]|]; by try injection H as <-.
Qed.

Lemma readlines_nil (content : string) :
  Batch.readlines content = [] → content = "".
Proof.
  unfold Batch.readlines. intros H.
  assert (Batch.universal_newlines content = "") as Hu.
  { destruct (Batch.universal_newlines content) as [|c s]; [done |].
    cbn [Batch.splitlines] in H.
    destruct (Ascii.eqb c Batch.LF); [done |].
    by destruct (Batch.splitlines s). }
  destruct content as [|c rest]; [done |].
  cbn [Batch.universal_newlines] in Hu.
  destruct (Ascii.eqb c Batch.CR); [| done].
  destruct rest as [|c2 rest2]; [done |]. by destruct (Ascii.eqb c2 Batch.LF).
Qed.

Lemma append_line_not_empty (content res : string) :
  content +:+ res +:+ String Batch.LF "" ≠ "".
Proof. destruct content; [by destruct res | done]. Qed.

Lemma written_snoc (started : list (string * Batch.relaxer_end))
    (job : string * Batch.relaxer_end) :
  Batch.written (started ++ [job])
  = Batch.written started +:+ job.1 +:+ String Batch.LF "".
Proof.
  unfold Batch.written. by rewrite fmap_app, join_empty_app.
Qed.

Lemma written_elem_of (started : list (string * Batch.relaxer_end))
    (res : string) :
  res ∈ started.*1 →
  ∃ before after,
    Batch.written started = before +:+ res +:+ String Batch.LF after.
Proof.
  induction started as [|job started IH]; [by intros ?%elem_of_nil |].
  rewrite fmap_cons, elem_of_cons. unfold Batch.written in *.
  rewrite fmap_cons, join_empty_cons. intros [->|Hin].
  - exists "", (Py.join "" ((λ job, job.1 +:+ String Batch.LF "") <$> started)).
    by rewrite append_assoc.
  - destruct (IH Hin) as (before & after & ->).
    exists ((job.1 +:+ String Batch.LF "") +:+ before), after.
    by rewrite !append_assoc.
Qed.

Lemma contains_refl (s : string) : Py.contains s s = true.
Proof. apply contains_split. exists "", "". by rewrite append_nil_r. Qed.

Section Worker.

Variable relaxer :
  gmap string Batch.node → string → gmap string Batch.node * Batch.relaxer_end.
Variable ignore_jobs_file : bool.
Variable limit : option Z.

Lemma perform_new_calculations_count (res_list : list string) :
  ∀ fs started0,
    let r := Batch.perform_new_calculations relaxer ignore_jobs_file limit
               res_list fs (Z.of_nat (length started0)) started0 in
    ∃ new, r.1.2 = started0 ++ new
           ∧ sublist new.*1 res_list
           ∧ (∀ n, limit = Some n → Z.of_nat (length started0) <= n →
                   Z.of_nat (length r.1.2) <= n)
           ∧ (∀ c, r.2 = Batch.Put (Batch.JobCount c) →
                   c = Z.of_nat (length r.1.2)).
Proof.
  induction res_list as [|res rest IH]; intros fs started0 r; subst r.
  { exists []. rewrite app_nil_r. simpl.
    split; [done |]. split; [done |]. split; [done | by intros c [= <-]]. }
  pattern (Batch.perform_new_calculations relaxer ignore_jobs_file limit
             (res :: rest) fs (Z.of_nat (length started0)) started0).
  match goal with |- ?P _ => set (Post := P) end.
  assert (∀ fs1, Post (Batch.perform_new_calculations relaxer ignore_jobs_file
                         limit rest fs1 (Z.of_nat (length started0)) started0))
    as Hskip.
  { intros fs1. destruct (IH fs1 started0) as (new & Hnew & Hsub & Hlim & Hc).
    exists new. split; [done |]. split; [by apply sublist_cons | done]. }
  assert (∀ fs1 stop, (∀ c, stop = Batch.Put (Batch.JobCount c) →
                            c = Z.of_nat (length started0)) →
                      Post (fs1, started0, stop)) as Hstop.
  { intros fs1 stop Hc. exists []. rewrite app_nil_r. simpl.
    split; [done |]. split; [apply sublist_nil_l | done]. }
  cbn [Batch.perform_new_calculations].
  destruct (if ignore_jobs_file then Some false
            else Batch._check_jobs_file fs res) as [listed|];
    [| by apply Hstop].
  destruct (listed || Batch.isfile fs (res +:+ ".lock")); [apply Hskip |].
  destruct (match limit with
            | Some limit => Z.of_nat (length started0) =? limit
            | None => false
            end) eqn:Hlimit; [apply Hstop; by intros c [= <-] |].
  destruct (Batch.isfile fs (res +:+ ".lock")); [apply Hskip |].
  destruct (Batch.append_to fs (res +:+ ".lock") "") as [fs1|err];
    [| by apply Hstop].
  destruct (Batch.append_to fs1 "jobs.txt" _) as [fs2|err]; [| by apply Hstop].
  destruct (relaxer fs2 res) as [fs3 relaxed].
  replace (Z.of_nat (length started0) + 1)
    with (Z.of_nat (length (started0 ++ [(res, relaxed)])))
    by (rewrite length_app; simpl; lia).
  assert (∀ n, limit = Some n → Z.of_nat (length started0) <= n →
               Z.of_nat (length (started0 ++ [(res, relaxed)])) <= n) as Hroom.
  { intros n Hn Hle. rewrite Hn in Hlimit. apply Z.eqb_neq in Hlimit.
    rewrite length_app. simpl. lia. }
  assert (∀ fs1, Post (Batch.perform_new_calculations relaxer ignore_jobs_file
                         limit rest fs1
                         (Z.of_nat (length (started0 ++ [(res, relaxed)])))
                         (started0 ++ [(res, relaxed)]))) as Hnext.
  { intros fs4.
    destruct (IH fs4 (started0 ++ [(res, relaxed)]))
      as (new & Hnew & Hsub & Hlim & Hc).
    exists ((res, relaxed) :: new).
    split; [by rewrite Hnew, <- app_assoc |].
    split; [by apply sublist_skip |]. split; [| done].
    intros n Hn Hle. apply (Hlim n Hn). by apply Hroom. }
  assert (∀ fs1 stop, (∀ c, stop ≠ Batch.Put (Batch.JobCount c)) →
                      Post (fs1, started0 ++ [(res, relaxed)], stop)) as Hfail.
  { intros fs4 stop Hne. exists [(res, relaxed)]. simpl.
    split; [done |]. split; [apply sublist_skip, sublist_nil_l |].
    split; [apply Hroom | by intros c ?%Hne]. }
  destruct relaxed as [err| |[] []];
    repeat match goal with
           | |- Post (match ?x with _ => _ end) => destruct x
           end;
    first [ by apply Hfail | apply Hnext ].
Qed.

Hypothesis relaxer_keeps_jobs :
  ∀ fs res, (relaxer fs res).1 !! "jobs.txt" = fs !! "jobs.txt".

Lemma perform_new_calculations_ledger (content : string)
    (res_list : list string) :
  ∀ fs job_count started0,
    fs !! "jobs.txt"
    = Some (Batch.File (content +:+ Batch.written started0)) →
    let r := Batch.perform_new_calculations relaxer ignore_jobs_file limit
               res_list fs job_count started0 in
    ∃ new, r.1.2 = started0 ++ new
           ∧ r.1.1 !! "jobs.txt"
             = Some (Batch.File (content +:+ Batch.written r.1.2))
           ∧ (∀ i res success,
                new !! i = Some (res, Batch.Relaxer false success) →
                S i = length new
                ∧ (r.2 = Batch.Put (Batch.Raised Batch.closed_file)
                   ∨ r.2 = Batch.Put (Batch.Raised (Batch.IsADirectoryError
                                                      "memory_exceeded.txt"))))
           ∧ (ignore_jobs_file = false →
              Forall (λ res, Batch.one_line res = true) res_list →
              NoDup started0.*1 → NoDup r.1.2.*1).
Proof.
  induction res_list as [|res rest IH]; intros fs job_count started0 Hjobs r;
    subst r.
  { exists []. rewrite app_nil_r. simpl.
    split; [done |]. split; [done |]. split; [| done].
    intros i res success Hi. by rewrite lookup_nil in Hi. }
  pattern (Batch.perform_new_calculations relaxer ignore_jobs_file limit
             (res :: rest) fs job_count started0).
  match goal with |- ?P _ => set (Post := P) end.
  assert (∀ fs1 job_count,
            fs1 !! "jobs.txt" = fs !! "jobs.txt" →
            Post (Batch.perform_new_calculations relaxer ignore_jobs_file
                    limit rest fs1 job_count started0)) as Hskip.
  { intros fs1 jc Hfs1. rewrite <- Hfs1 in Hjobs.
    destruct (IH fs1 jc started0 Hjobs) as (new & Hnew & Hled & Hmem & Hdup).
    exists new. split; [done |]. split; [done |]. split; [done |].
    intros Hign [_ Hlines]%Forall_cons_1 Hnodup. by apply Hdup. }
  assert (∀ fs1 stop, fs1 !! "jobs.txt" = fs !! "jobs.txt" →
                      Post (fs1, started0, stop)) as Hstop.
  { intros fs1 stop Hfs1. exists []. rewrite app_nil_r. simpl.
    split; [done |]. split; [by rewrite Hfs1 |]. split; [| done].
    intros i res' success Hi. by rewrite lookup_nil in Hi. }
  cbn [Batch.perform_new_calculations].
  destruct (if ignore_jobs_file then Some false
            else Batch._check_jobs_file fs res) as [listed|] eqn:Hcheck;
    [| by apply Hstop].
  destruct (listed || Batch.isfile fs (res +:+ ".lock")) eqn:Hrunning;
    [by apply Hskip |].
  destruct (match limit with
            | Some limit => job_count =? limit
            | None => false
            end); [by apply Hstop |].
  destruct (Batch.isfile fs (res +:+ ".lock")); [by apply Hskip |].
  destruct (Batch.append_to fs (res +:+ ".lock") "") as [fs1|err] eqn:Hlock;
    [| by apply Hstop].
  pose proof (append_to_lookup_ne _ _ _ _ "jobs.txt" Hlock
                (not_eq_sym (lock_not_jobs res))) as Hfs1.
  destruct (Batch.append_to fs1 "jobs.txt" _) as [fs2|err] eqn:Hwrite;
    [| by apply Hstop].
  rewrite <- Hfs1 in Hjobs.
  pose proof (append_to_lookup_eq _ _ _ _ _ Hwrite Hjobs) as Hfs2.
  rewrite Hfs1 in Hjobs.
  pose proof (relaxer_keeps_jobs fs2 res) as Hfs3.
  destruct (relaxer fs2 res) as [fs3 relaxed]. cbn [fst] in Hfs3.
  rewrite Hfs2, append_assoc in Hfs3.
  change (res +:+ String Batch.LF "")
    with ((res, relaxed).1 +:+ String Batch.LF "") in Hfs3.
  rewrite <- written_snoc in Hfs3.
  assert (ignore_jobs_file = false → Batch.one_line res = true →
          NoDup started0.*1 → NoDup (started0 ++ [(res, relaxed)]).*1)
    as Hfresh.
  { intros Hign Hres Hdup. rewrite fmap_app. apply NoDup_app.
    split; [done |]. split; [| apply NoDup_singleton].
    intros x Hx Hres'%list_elem_of_singleton. simpl in Hres'. subst x.
    destruct (written_elem_of _ _ Hx) as (before & after & Hw).
    rewrite Hw, <- append_assoc in Hjobs.
    rewrite Hign, (check_jobs_file_line _ _ _ _ _ Hjobs Hres (contains_refl _))
      in Hcheck.
    injection Hcheck as <-. done. }
  assert (∀ fs1 job_count,
            fs1 !! "jobs.txt" = fs3 !! "jobs.txt" →
            (∀ success, relaxed ≠ Batch.Relaxer false success) →
            Post (Batch.perform_new_calculations relaxer ignore_jobs_file
                    limit rest fs1 job_count (started0 ++ [(res, relaxed)])))
    as Hnext.
  { intros fs4 jc Hfs4 Hmemory. rewrite <- Hfs4 in Hfs3.
    destruct (IH fs4 jc _ Hfs3) as (new & Hnew & Hled & Hmem & Hdup).
    exists ((res, relaxed) :: new).
    split; [by rewrite Hnew, <- app_assoc |]. split; [done |]. split.
    - intros [|i] res' success Hi.
      + injection Hi as -> ->. by destruct (Hmemory success).
      + destruct (Hmem i res' success Hi) as [Hlast Hend]. simpl.
        by rewrite Hlast.
    - intros Hign [Hres Hlines]%Forall_cons_1 Hnodup.
      apply Hdup; [done.. |]. by apply Hfresh. }
  assert (∀ fs1 stop,
            fs1 !! "jobs.txt" = fs3 !! "jobs.txt" →
            (∀ success, relaxed = Batch.Relaxer false success →
               stop = Batch.Put (Batch.Raised Batch.closed_file)
               ∨ stop = Batch.Put (Batch.Raised (Batch.IsADirectoryError
                                                   "memory_exceeded.txt"))) →
            Post (fs1, started0 ++ [(res, relaxed)], stop)) as Hfail.
  { intros fs4 stop Hfs4 Hmemory. exists [(res, relaxed)]. simpl.
    split; [done |]. split; [by rewrite Hfs4 |]. split.
    - intros [|i] res' success Hi; [| by rewrite lookup_cons, lookup_nil in Hi].
      injection Hi as -> ->. split; [done |]. by apply (Hmemory success).
    - intros Hign [Hres Hlines]%Forall_cons_1 Hnodup. by apply Hfresh. }
  destruct relaxed as [err| |[] success].
  - by apply Hfail.
  - by apply Hfail.
  - destruct success.
    + destruct (Batch.append_to fs3 "finished_cleanly.txt" _) as [fs4|err]
        eqn:Hdone; [| by apply Hfail].
      apply Hnext; [| done].
      by apply (append_to_lookup_ne _ _ _ _ "jobs.txt" Hdone).
    + destruct (Batch.append_to fs3 "failures.txt" _) as [fs4|err]
        eqn:Hdone; [| by apply Hfail].
      apply Hnext; [| done].
      by apply (append_to_lookup_ne _ _ _ _ "jobs.txt" Hdone).
  - destruct (Batch.append_to fs3 "memory_exceeded.txt" _) as [fs4|err]
      eqn:Hmemory.
    + pose proof (append_to_lookup_ne _ _ _ _ "jobs.txt" Hmemory
                    ltac:(done)) as Hfs4.
      pose proof (lookup_remove_if_file_ne fs4 (res +:+ ".lock") "jobs.txt"
                    (not_eq_sym (lock_not_jobs res))) as Hfs5.
      rewrite Hfs4 in Hfs5. rewrite Hfs5, Hfs3.
      destruct (Batch.readlines _) as [|line lines] eqn:Hlines.
      * apply readlines_nil in Hlines. rewrite written_snoc in Hlines.
        rewrite <- append_assoc in Hlines.
        by destruct (append_line_not_empty _ _ Hlines).
      * apply Hfail; [by rewrite Hfs5 | by left].
    + apply append_to_fails in Hmemory as ->. apply Hfail; [done | by right].
Qed.

End Worker.

(** X12. A worker constructs a [FullRelaxer] for a subsequence of
    [res_list], in order. With a limit of [n >= 0] jobs it constructs at
    most [n], and the job count it puts on the queue when it returns is
    the number of relaxers it constructed. *)
Theorem perform_new_calculations_job_count
    (relaxer : gmap string Batch.node → string
               → gmap string Batch.node * Batch.relaxer_end)
    (ignore_jobs_file : bool) (limit : option Z) (res_list : list string)
    (fs fs' : gmap string Batch.node)
    (started : list (string * Batch.relaxer_end)) (e : Batch.worker_end) :
  Batch.perform_new_calculations relaxer ignore_jobs_file limit res_list fs 0 []
  = (fs', started, e) →
  sublist started.*1 res_list
  ∧ (∀ n, limit = Some n → 0 <= n → Z.of_nat (length started) <= n)
  ∧ (∀ c, e = Batch.Put (Batch.JobCount c) → c = Z.of_nat (length started)).
Proof.
  intros Hrun.
  destruct (perform_new_calculations_count relaxer ignore_jobs_file limit
              res_list fs []) as (new & Hnew & Hsub & Hlim & Hc).
  change (Z.of_nat (length (@nil (string * Batch.relaxer_end)))) with 0
    in Hnew, Hlim, Hc.
  rewrite Hrun in Hnew, Hlim, Hc. simpl in Hnew, Hlim, Hc. subst new.
  done.
Qed.

Lemma perform_new_calculations_job_count_witness :
  let relaxer := λ (fs : gmap string Batch.node) (res : string),
                   (fs, Batch.Relaxer true true) in
  let r := Batch.perform_new_calculations relaxer false (Some 2)
             ["a.res"; "b.res"; "c.res"; "d.res"]
             {["jobs.txt" := Batch.File ("b.res" +:+ String Batch.LF "")]}
             0 [] in
  r.1.2.*1 = ["a.res"; "c.res"]
  ∧ r.2 = Batch.Put (Batch.JobCount 2)
  ∧ sublist r.1.2.*1 ["a.res"; "b.res"; "c.res"; "d.res"]
  ∧ (∀ n, Some 2 = Some n → 0 <= n → Z.of_nat (length r.1.2) <= n)
  ∧ (∀ c, r.2 = Batch.Put (Batch.JobCount c) → c = Z.of_nat (length r.1.2)).
Proof.
  intros relaxer r. split; [by vm_compute |]. split; [by vm_compute |].
  apply (perform_new_calculations_job_count relaxer false (Some 2)
           ["a.res"; "b.res"; "c.res"; "d.res"]
           {["jobs.txt" := Batch.File ("b.res" +:+ String Batch.LF "")]}
           r.1.1 r.1.2 r.2).
  by vm_compute.
Defined.

(** X13. When the relaxers leave the jobs file alone, a worker only ever
    appends to it: afterwards the file holds what it held before, followed
    by one line for each structure a [FullRelaxer] was constructed for, in
    order. No line is taken out again, whatever the relaxers brought
    back. *)
Theorem perform_new_calculations_jobs_file
    (relaxer : gmap string Batch.node → string
               → gmap string Batch.node * Batch.relaxer_end)
    (ignore_jobs_file : bool) (limit : option Z) (res_list : list string)
    (content : string) (fs fs' : gmap string Batch.node)
    (started : list (string * Batch.relaxer_end)) (e : Batch.worker_end) :
  (∀ fs res, (relaxer fs res).1 !! "jobs.txt" = fs !! "jobs.txt") →
  fs !! "jobs.txt" = Some (Batch.File content) →
  Batch.perform_new_calculations relaxer ignore_jobs_file limit res_list fs 0 []
  = (fs', started, e) →
  fs' !! "jobs.txt" = Some (Batch.File (content +:+ Batch.written started)).
Proof.
  intros Hkeeps Hjobs Hrun.
  destruct (perform_new_calculations_ledger relaxer ignore_jobs_file limit
              Hkeeps content res_list fs 0 [])
    as (new & Hnew & Hled & _); [by rewrite append_nil_r |].
  by rewrite Hrun in Hled.
Qed.

Lemma perform_new_calculations_jobs_file_witness :
  let relaxer := λ (fs : gmap string Batch.node) (res : string),
                   (fs, Batch.Relaxer true (String.eqb res "a.res")) in
  let r := Batch.perform_new_calculations relaxer false None
             ["a.res"; "b.res"; "c.res"]
             {["jobs.txt" := Batch.File ("b.res" +:+ String Batch.LF "")]}
             0 [] in
  r.1.1 !! "jobs.txt"
  = Some (Batch.File (("b.res" +:+ String Batch.LF "")
                      +:+ Batch.written r.1.2)).
Proof.
  intros relaxer r.
  apply (perform_new_calculations_jobs_file relaxer false None
           ["a.res"; "b.res"; "c.res"] _
           {["jobs.txt" := Batch.File ("b.res" +:+ String Batch.LF "")]}
           r.1.1 r.1.2 r.2).
  - done.
  - by rewrite lookup_singleton_eq.
  - by vm_compute.
Defined.

(** X14. When the relaxers leave the jobs file alone, a [FullRelaxer] that
    reports too little memory is the last one its worker constructs: the
    worker does not go on to the next structure but ends with an exception
    on the queue, the [ValueError] of the closed jobs file (or the error of
    a memory log that is a directory), and the structure is still found in
    the jobs file. *)
Theorem perform_new_calculations_memory_failure
    (relaxer : gmap string Batch.node → string
               → gmap string Batch.node * Batch.relaxer_end)
    (ignore_jobs_file : bool) (limit : option Z) (res_list : list string)
    (content : string) (fs fs' : gmap string Batch.node)
    (started : list (string * Batch.relaxer_end)) (e : Batch.worker_end)
    (i : nat) (res : string) (success : bool) :
  (∀ fs res, (relaxer fs res).1 !! "jobs.txt" = fs !! "jobs.txt") →
  fs !! "jobs.txt" = Some (Batch.File content) →
  Batch.perform_new_calculations relaxer ignore_jobs_file limit res_list fs 0 []
  = (fs', started, e) →
  started !! i = Some (res, Batch.Relaxer false success) →
  S i = length started
  ∧ (e = Batch.Put (Batch.Raised Batch.closed_file)
     ∨ e = Batch.Put (Batch.Raised
                        (Batch.IsADirectoryError "memory_exceeded.txt")))
  ∧ (Batch.one_line res = true → Batch._check_jobs_file fs' res = Some true).
Proof.
  intros Hkeeps Hjobs Hrun Hi.
  destruct (perform_new_calculations_ledger relaxer ignore_jobs_file limit
              Hkeeps content res_list fs 0 [])
    as (new & Hnew & Hled & Hmem & _); [by rewrite append_nil_r |].
  rewrite Hrun in Hnew, Hled, Hmem. simpl in Hnew, Hled, Hmem. subst new.
  destruct (Hmem i res success Hi) as [Hlast Hend].
  split; [done |]. split; [done |]. intros Hres.
  destruct (written_elem_of started res) as (before & after & Hw).
  { apply list_elem_of_fmap. exists (res, Batch.Relaxer false success).
    split; [done |]. by eapply list_elem_of_lookup_2. }
  rewrite Hw, <- append_assoc in Hled.
  apply (check_jobs_file_line _ _ _ _ _ Hled Hres (contains_refl _)).
Qed.

Lemma perform_new_calculations_memory_failure_witness :
  let relaxer := λ (fs : gmap string Batch.node) (res : string),
                   (fs, Batch.Relaxer (negb (String.eqb res "b.res")) true) in
  let r := Batch.perform_new_calculations relaxer false None
             ["a.res"; "b.res"; "c.res"]
             {["jobs.txt" := Batch.File ""]} 0 [] in
  r.1.2 = [("a.res", Batch.Relaxer true true);
           ("b.res", Batch.Relaxer false true)]
  ∧ r.2 = Batch.Put (Batch.Raised Batch.closed_file)
  ∧ Batch._check_jobs_file r.1.1 "b.res" = Some true.
Proof.
  intros relaxer r.
  destruct (perform_new_calculations_memory_failure relaxer false None
              ["a.res"; "b.res"; "c.res"] ""
              {["jobs.txt" := Batch.File ""]} r.1.1 r.1.2 r.2
              1 "b.res" true) as (_ & _ & Hlisted).
  - done.
  - by rewrite lookup_singleton_eq.
  - by vm_compute.
  - by vm_compute.
  - split; [by vm_compute |]. split; [by vm_compute |]. by apply Hlisted.
Defined.

(** X15. A worker that consults the jobs file constructs at most one
    [FullRelaxer] for a name, however often the name occurs in [res_list],
    when the names hold no line break and the relaxers leave the jobs file
    alone: the line written at the first start marks the name as listed. *)
Theorem perform_new_calculations_starts_once
    (relaxer : gmap string Batch.node → string
               → gmap string Batch.node * Batch.relaxer_end)
    (limit : option Z) (res_list : list string)
    (content : string) (fs fs' : gmap string Batch.node)
    (started : list (string * Batch.relaxer_end)) (e : Batch.worker_end) :
  (∀ fs res, (relaxer fs res).1 !! "jobs.txt" = fs !! "jobs.txt") →
  fs !! "jobs.txt" = Some (Batch.File content) →
  Forall (λ res, Batch.one_line res = true) res_list →
  Batch.perform_new_calculations relaxer false limit res_list fs 0 []
  = (fs', started, e) →
  NoDup started.*1.
Proof.
  intros Hkeeps Hjobs Hlines Hrun.
  destruct (perform_new_calculations_ledger relaxer false limit
              Hkeeps content res_list fs 0 [])
    as (new & _ & _ & _ & Hdup); [by rewrite append_nil_r |].
  rewrite Hrun in Hdup. apply Hdup; [done.. |]. apply NoDup_nil_2.
Qed.

Lemma perform_new_calculations_starts_once_witness :
  let relaxer := λ (fs : gmap string Batch.node) (res : string),
                   (delete (res +:+ ".lock") fs, Batch.Relaxer true true) in
  let r := Batch.perform_new_calculations relaxer false None
             ["a.res"; "b.res"; "a.res"]
             {["jobs.txt" := Batch.File ""]} 0 [] in
  r.1.2.*1 = ["a.res"; "b.res"] ∧ NoDup r.1.2.*1.
Proof.
  intros relaxer r. split; [by vm_compute |].
  apply (perform_new_calculations_starts_once relaxer None
           ["a.res"; "b.res"; "a.res"] ""
           {["jobs.txt" := Batch.File ""]} r.1.1 r.1.2 r.2).
  - intros fs res. simpl. apply lookup_delete_ne. apply lock_not_jobs.
  - by rewrite lookup_singleton_eq.
  - by repeat constructor.
  - by vm_compute.
Defined.

(** ** [files2db]: the estimate of a missing k-point spacing *)

Section EstimateSpacing.

Local Open Scope R_scope.

Variable estimate : R → option R.

Lemma outer_loop_keeps_spacing (js : list nat) (recip_abc : list R)
    (final_struct : SpatulaKpoints.struct) (spacing : R) :
  SpatulaKpoints.kpoints_mp_spacing final_struct = Some spacing →
  SpatulaKpoints.kpoints_mp_spacing
    (SpatulaKpoints.outer_loop estimate js recip_abc final_struct)
  = Some spacing.
Proof.
  intros Hs. revert recip_abc.
  induction js as [|j js IH]; intros recip_abc; [done |].
  cbn [SpatulaKpoints.outer_loop].
  destruct (SpatulaKpoints.lattice_abc0 final_struct !! j) as [x|]; [| done].
  destruct (Req_dec_T x 0); [done |]. rewrite Hs. apply IH.
Qed.

Lemma max_step_zero (m : R) : 0 <= m → CellUtils.max_step m 0 = m.
Proof.
  intros Hm. unfold CellUtils.max_step. destruct (Rlt_dec m 0); [lra | done].
Qed.

Lemma inner_loop_first_axis (a : R) (n0 n1 n2 : Z) (more : list Z) :
  n0 ≠ 0%Z → n1 ≠ 0%Z → n2 ≠ 0%Z →
  SpatulaKpoints.inner_loop [2 * PI / a; 0; 0] (n0 :: n1 :: n2 :: more)
  = Some (CellUtils.max_step 0 (2 * PI / a / (2 * PI * IZR n0))).
Proof.
  intros Hn0 Hn1 Hn2. pose proof PI_RGT_0 as Hpi.
  assert (IZR n1 ≠ 0) as Hr1 by (by apply not_0_IZR).
  assert (IZR n2 ≠ 0) as Hr2 by (by apply not_0_IZR).
  unfold SpatulaKpoints.inner_loop. cbn -[CellUtils.max_step].
  apply Z.eqb_neq in Hn0, Hn1, Hn2. rewrite Hn0, Hn1, Hn2.
  cbn -[CellUtils.max_step].
  replace (0 / (2 * PI * IZR n1)) with 0 by (field; lra).
  replace (0 / (2 * PI * IZR n2)) with 0 by (field; lra).
  pose proof (max_step_ge 0 (2 * PI / a / (2 * PI * IZR n0))) as [Hge _].
  by rewrite !max_step_zero by (by rewrite ?max_step_zero).
Qed.

Lemma estimate_spacing_value (a : R) (rest : list R) (n0 n1 n2 : Z)
    (more : list Z) :
  a ≠ 0 → n0 ≠ 0%Z → n1 ≠ 0%Z → n2 ≠ 0%Z →
  SpatulaKpoints.kpoints_mp_spacing
    (SpatulaKpoints.estimate_spacing estimate
       (SpatulaKpoints.Struct (a :: rest) (Some (n0 :: n1 :: n2 :: more)) None))
  = estimate (CellUtils.max_step 0 (2 * PI / a / (2 * PI * IZR n0))).
Proof.
  intros Ha Hn0 Hn1 Hn2.
  unfold SpatulaKpoints.estimate_spacing.
  set (js := [1; 2]%nat).
  set (final_struct :=
         SpatulaKpoints.Struct (a :: rest) (Some (n0 :: n1 :: n2 :: more)) None).
  change (SpatulaKpoints.kpoints_mp_spacing
            (if Req_dec_T a 0 then final_struct
             else
               match SpatulaKpoints.inner_loop [2 * PI / a; 0; 0]
                       (n0 :: n1 :: n2 :: more) with
               | None => final_struct
               | Some max_spacing =>
                   match estimate max_spacing with
                   | None => final_struct
                   | Some spacing =>
                       SpatulaKpoints.outer_loop estimate js [2 * PI / a; 0; 0]
                         (SpatulaKpoints.Struct (a :: rest)
                            (Some (n0 :: n1 :: n2 :: more)) (Some spacing))
                   end
               end)
          = estimate (CellUtils.max_step 0 (2 * PI / a / (2 * PI * IZR n0)))).
  destruct (Req_dec_T a 0) as [Hz|_]; [done |].
  rewrite inner_loop_first_axis by done.
  destruct (estimate _) as [spacing|]; [| done].
  by apply outer_loop_keeps_spacing.
Qed.

(** X16. The spacing that [files2db] estimates for a structure with a grid
    and no spacing depends on the first cell length and the first grid
    dimension alone: the largest spacing handed to the final rounding is
    [max(0, (2*pi/a)/(2*pi*n0))], whatever the other two cell lengths and
    (non-zero) grid dimensions are, so two structures that agree on [a]
    and [n0] get the same estimate. *)
Theorem estimate_spacing_first_axis (a : R) (rest rest' : list R)
    (n0 n1 n2 n1' n2' : Z) (more more' : list Z) :
  a ≠ 0 → n0 ≠ 0%Z → n1 ≠ 0%Z → n2 ≠ 0%Z → n1' ≠ 0%Z → n2' ≠ 0%Z →
  let stored := λ lengths grid,
    SpatulaKpoints.kpoints_mp_spacing
      (SpatulaKpoints.estimate_spacing estimate
         (SpatulaKpoints.Struct lengths (Some grid) None)) in
  stored (a :: rest) (n0 :: n1 :: n2 :: more)
  = estimate (CellUtils.max_step 0 (2 * PI / a / (2 * PI * IZR n0)))
  ∧ stored (a :: rest') (n0 :: n1' :: n2' :: more')
    = stored (a :: rest) (n0 :: n1 :: n2 :: more).
Proof.
  intros Ha Hn0 Hn1 Hn2 Hn1' Hn2' stored. subst stored. cbv beta.
  by rewrite !estimate_spacing_value.
Qed.

End EstimateSpacing.

Lemma estimate_spacing_first_axis_witness :
  let stored := λ lengths grid,
    SpatulaKpoints.kpoints_mp_spacing
      (SpatulaKpoints.estimate_spacing (λ max_spacing, Some max_spacing)
         (SpatulaKpoints.Struct lengths (Some grid) None)) in
  stored [10; 2; 2]%R [2; 2; 2] = stored [10; 10; 10]%R [2; 20; 20].
Proof.
  apply (estimate_spacing_first_axis (λ max_spacing, Some max_spacing)
           10%R [10; 10]%R [2; 2]%R 2 20 20 2 2 [] []);
    first [lra | lia].
Defined.


(** ** [get_chempots]: the references taken from the cursor *)

Section ChempotsProperties.

Local Open Scope Q_scope.

Let key (d : Chempots.entry) : Q := Chempots.enthalpy_per_atom d.2.

Lemma elem_of_insert (x d : Chempots.entry) (l : list Chempots.entry) :
  x ∈ Chempots.insert d l ↔ x = d ∨ x ∈ l.
Proof.
  induction l as [|y l IH]; simpl.
  - rewrite list_elem_of_singleton, elem_of_nil. tauto.
  - destruct (Qle_bool _ _); rewrite !elem_of_cons; [tauto |].
    rewrite IH. tauto.
Qed.

Lemma elem_of_sorted (x : Chempots.entry) (l : list Chempots.entry) :
  x ∈ Chempots.sorted l ↔ x ∈ l.
Proof.
  induction l as [|d l IH]; [done |].
  unfold Chempots.sorted in *. simpl.
  rewrite elem_of_insert, elem_of_cons, IH. tauto.
Qed.

Lemma insert_sorted (d : Chempots.entry) (l : list Chempots.entry) :
  StronglySorted (λ x y, key x <= key y) l →
  StronglySorted (λ x y, key x <= key y) (Chempots.insert d l).
Proof.
  induction 1 as [|y l Hl IH Hy]; simpl.
  - by repeat constructor.
  - fold (key d) (key y).
    destruct (Qle_bool (key d) (key y)) eqn:Hle.
    + apply Qle_bool_iff in Hle. constructor; [by constructor |].
      constructor; [done |].
      eapply Forall_impl; [exact Hy |]. intros z Hz. simpl in Hz.
      by apply Qle_trans with (key y).
    + constructor; [done |]. apply Forall_forall. intros z Hz.
      apply elem_of_insert in Hz as [->|Hz].
      * destruct (Qlt_le_dec (key y) (key d)) as [Hlt|Hge].
        -- by apply Qlt_le_weak.
        -- apply Qle_bool_iff in Hge. congruence.
      * by apply (proj1 (Forall_forall _ _) Hy).
Qed.

Lemma sorted_sorted (l : list Chempots.entry) :
  StronglySorted (λ x y, key x <= key y) (Chempots.sorted l).
Proof.
  induction l as [|d l IH]; [constructor |]. by apply insert_sorted.
Qed.

Lemma find_insert (p : Chempots.entry → bool) (d : Chempots.entry)
    (l : list Chempots.entry) :
  StronglySorted (λ x y, key x <= key y) l →
  find p (Chempots.insert d l)
  = if p d then
      match find p l with
      | Some x => if Qle_bool (key d) (key x) then Some d else Some x
      | None => Some d
      end
    else find p l.
Proof.
  induction 1 as [|y l Hl IH Hy]; simpl; [done |].
  fold (key d) (key y).
  destruct (Qle_bool (key d) (key y)) eqn:Hle; simpl.
  - destruct (p d) eqn:Hd; [| done].
    destruct (p y) eqn:Hpy; [by rewrite Hle |].
    destruct (find p l) as [x|] eqn:Hfind; [| done].
    apply find_some in Hfind as [Hx%list_elem_of_In _].
    assert (key d <= key x) as Hdx.
    { apply Qle_bool_iff in Hle. apply Qle_trans with (key y); [done |].
      by apply (proj1 (Forall_forall _ _) Hy). }
    apply Qle_bool_iff in Hdx. by rewrite Hdx.
  - destruct (p y) eqn:Hpy.
    + destruct (p d); [by rewrite Hle | done].
    + apply IH.
Qed.

(** The first match in the sorted list is the match of lowest key, and
    among those the one that comes first in the cursor. *)
Lemma find_sorted_spec (p : Chempots.entry → bool) (l : list Chempots.entry) :
  StronglySorted (λ x y, (x.1 < y.1)%nat) l →
  match find p (Chempots.sorted l) with
  | Some x => x ∈ l ∧ p x = true
              ∧ ∀ y, y ∈ l → p y = true →
                     key x <= key y ∧ (key y == key x → (x.1 <= y.1)%nat)
  | None => ∀ y, y ∈ l → p y = false
  end.
Proof.
  induction 1 as [|d l Hl IH Hd]; [by intros y ?%elem_of_nil |].
  unfold Chempots.sorted in *. simpl.
  rewrite find_insert by apply sorted_sorted.
  destruct (find p (foldr Chempots.insert [] l)) as [x|] eqn:Hfind.
  - destruct IH as (Hx & Hpx & Hmin).
    destruct (p d) eqn:Hpd.
    + destruct (Qle_bool (key d) (key x)) eqn:Hle.
      * apply Qle_bool_iff in Hle.
        split; [by left |]. split; [done |].
        intros y [->|Hy]%elem_of_cons Hpy.
        -- split; [apply Qle_refl | done].
        -- destruct (Hmin y Hy Hpy) as [Hxy _].
           split; [by apply Qle_trans with (key x) |]. intros _.
           apply Nat.lt_le_incl. by apply (proj1 (Forall_forall _ _) Hd).
      * assert (key x < key d) as Hlt.
        { destruct (Qlt_le_dec (key x) (key d)) as [Hlt|Hge]; [done |].
          apply Qle_bool_iff in Hge. congruence. }
        split; [by right |]. split; [done |].
        intros y [->|Hy]%elem_of_cons Hpy; [| by apply Hmin].
        split; [by apply Qlt_le_weak |]. intros Heq.
        rewrite Heq in Hlt. by apply Qlt_irrefl in Hlt.
    + split; [by right |]. split; [done |].
      intros y [->|Hy]%elem_of_cons Hpy; [congruence | by apply Hmin].
  - destruct (p d) eqn:Hpd.
    + split; [by left |]. split; [done |].
      intros y [->|Hy]%elem_of_cons Hpy.
      * split; [apply Qle_refl | done].
      * rewrite (IH y Hy) in Hpy. done.
    + intros y [->|Hy]%elem_of_cons; [done | by apply IH].
Qed.

Lemma imap_pair_sorted {A} (l : list A) (n : nat) :
  StronglySorted (λ x y : nat * A, (x.1 < y.1)%nat) (imap (λ i, pair (n + i)%nat) l).
Proof.
  revert n. induction l as [|a l IH]; intros n; [constructor |].
  rewrite imap_cons. constructor.
  - rewrite (imap_ext _ (λ i, pair (S n + i)%nat)); [apply IH |].
    intros i x _. simpl. f_equal. lia.
  - apply Forall_forall. intros x (i & y & -> & _)%elem_of_lookup_imap.
    simpl. lia.
Qed.

Lemma filter_sorted {A} (R : relation A) (P : A → Prop)
    `{!∀ x, Decision (P x)} (l : list A) :
  StronglySorted R l → StronglySorted R (filter P l).
Proof.
  induction 1 as [|x l Hl IH Hx]; [constructor |].
  rewrite filter_cons. destruct (decide (P x)); [| done].
  constructor; [done |]. apply Forall_forall.
  intros y [_ Hy]%list_elem_of_filter.
  by apply (proj1 (Forall_forall _ _) Hx).
Qed.

Lemma elementals_sorted (cursor : list Chempots.document) :
  StronglySorted (λ x y : Chempots.entry, (x.1 < y.1)%nat)
    (filter (λ d : Chempots.entry,
               length (Chempots.stoichiometry d.2) = 1%nat)
            (imap pair cursor)).
Proof. apply filter_sorted, (imap_pair_sorted cursor 0). Qed.

Lemma elem_of_elementals (cursor : list Chempots.document)
    (d : Chempots.entry) :
  d ∈ filter (λ d : Chempots.entry,
                length (Chempots.stoichiometry d.2) = 1%nat)
             (imap pair cursor)
  ↔ cursor !! d.1 = Some d.2 ∧ length (Chempots.stoichiometry d.2) = 1%nat.
Proof.
  rewrite list_elem_of_filter, elem_of_lookup_imap. split.
  - by intros [Hlen (i & y & -> & Hi)].
  - intros [Hi Hlen]. split; [done |]. exists d.1, d.2. by destruct d.
Qed.

(** An elemental document of [elem] is one whose stoichiometry is the
    single entry [[elem, n]]. *)
Lemma is_elem_elemental (elem : string) (d : Chempots.entry) :
  length (Chempots.stoichiometry d.2) = 1%nat →
  Chempots.is_elem elem d = true
  ↔ ∃ n, Chempots.stoichiometry d.2 = [(elem, n)].
Proof.
  unfold Chempots.is_elem. intros Hlen.
  destruct (Chempots.stoichiometry d.2) as [|[symbol n] [|? ?]]; try done.
  split.
  - intros ->%String.eqb_eq. by exists n.
  - intros [n' [= -> _]]. apply String.eqb_refl.
Qed.

Lemma find_matches_cons (elem : string) (elements : list string)
    (chempots : list Chempots.entry) :
  Chempots.find_matches (elem :: elements) chempots
  = match find (Chempots.is_elem elem) chempots with
    | Some d => d :: Chempots.find_matches elements chempots
    | None => Chempots.find_matches elements chempots
    end.
Proof. reflexivity. Qed.

Lemma find_matches_length (elements : list string)
    (chempots : list Chempots.entry) :
  (length (Chempots.find_matches elements chempots) <= length elements)%nat
  ∧ (length (Chempots.find_matches elements chempots) = length elements
     ↔ ∀ elem, elem ∈ elements →
               is_Some (find (Chempots.is_elem elem) chempots)).
Proof.
  induction elements as [|elem elements [IHle IH]].
  - split; [done |]. split; [by intros _ elem ?%elem_of_nil | done].
  - rewrite find_matches_cons.
    destruct (find (Chempots.is_elem elem) chempots) as [d|] eqn:Hfind;
      cbn [length].
    + split; [lia |]. split.
      * intros Hlen elem' [->|Hin]%elem_of_cons; [by rewrite Hfind |].
        apply IH; [lia | done].
      * intros Hall. f_equal. apply IH. intros elem' Hin.
        apply Hall. by right.
    + split; [lia |]. split; [lia |]. intros Hall.
      destruct (Hall elem) as [d Hd]; [by left |]. congruence.
Qed.

Lemma find_matches_lookup (elements : list string)
    (chempots : list Chempots.entry) (i : nat) (elem : string) :
  length (Chempots.find_matches elements chempots) = length elements →
  elements !! i = Some elem →
  ∃ d, Chempots.find_matches elements chempots !! i = Some d
       ∧ find (Chempots.is_elem elem) chempots = Some d.
Proof.
  revert i.
  induction elements as [|elem' elements IH]; intros i Hlen Hi; [done |].
  pose proof (proj1 (find_matches_length elements chempots)) as Hle.
  rewrite find_matches_cons in Hlen |- *.
  destruct (find (Chempots.is_elem elem') chempots) as [d|] eqn:Hfind;
    cbn [length] in Hlen; [| lia].
  destruct i as [|i]; simpl in Hi |- *.
  - injection Hi as <-. by exists d.
  - apply IH; [lia | done].
Qed.

Lemma foldl_alter_length (matched : list Chempots.entry)
    (cursor : list Chempots.document) :
  length (foldl (λ cursor (d : Chempots.entry),
                   alter Chempots.set_reference d.1 cursor) cursor matched)
  = length cursor.
Proof.
  revert cursor. induction matched as [|d matched IH]; intros cursor; [done |].
  simpl. by rewrite IH, length_alter.
Qed.

Lemma foldl_alter_lookup (matched : list Chempots.entry)
    (cursor : list Chempots.document) (k : nat) (doc : Chempots.document) :
  cursor !! k = Some doc →
  foldl (λ cursor (d : Chempots.entry),
           alter Chempots.set_reference d.1 cursor) cursor matched !! k
  = Some (if bool_decide (k ∈ matched.*1) then Chempots.set_reference doc
          else doc).
Proof.
  revert cursor doc. induction matched as [|d matched IH];
    intros cursor doc Hk; [done |].
  rewrite fmap_cons. cbn [foldl].
  destruct (decide (d.1 = k)) as [Heq|Hne].
  - rewrite (IH _ (Chempots.set_reference doc))
      by (by rewrite <- Heq, list_lookup_alter_eq, Heq, Hk).
    rewrite (bool_decide_eq_true_2 (k ∈ d.1 :: matched.*1))
      by (rewrite Heq; by left).
    by destruct (bool_decide (k ∈ matched.*1)).
  - rewrite (IH _ doc) by (by rewrite list_lookup_alter_ne).
    f_equal. rewrite (bool_decide_ext (k ∈ d.1 :: matched.*1) (k ∈ matched.*1));
      [done |]. rewrite elem_of_cons. naive_solver.
Qed.

Lemma find_chempot_spec (cursor : list Chempots.document) (elem : string) :
  match find (Chempots.is_elem elem) (Chempots.chempot_cursor cursor) with
  | Some d =>
      cursor !! d.1 = Some d.2
      ∧ (∃ n, Chempots.stoichiometry d.2 = [(elem, n)])
      ∧ ∀ k doc n, cursor !! k = Some doc →
                   Chempots.stoichiometry doc = [(elem, n)] →
                   Chempots.enthalpy_per_atom d.2
                   <= Chempots.enthalpy_per_atom doc
                   ∧ (Chempots.enthalpy_per_atom doc
                      == Chempots.enthalpy_per_atom d.2 → (d.1 <= k)%nat)
  | None => ∀ k doc n, cursor !! k = Some doc →
                       Chempots.stoichiometry doc ≠ [(elem, n)]
  end.
Proof.
  unfold Chempots.chempot_cursor.
  pose proof (find_sorted_spec (Chempots.is_elem elem) _
                (elementals_sorted cursor)) as Hspec.
  destruct (find _ _) as [d|].
  - destruct Hspec as ((Hd & Hlen)%elem_of_elementals & Hp & Hmin).
    split; [done |]. split; [by apply is_elem_elemental |].
    intros k doc n Hk Hdoc.
    apply (Hmin (k, doc)).
    + apply elem_of_elementals. simpl. by rewrite Hdoc.
    + apply is_elem_elemental; simpl; [by rewrite Hdoc | by exists n].
  - intros k doc n Hk Hdoc.
    assert (Chempots.is_elem elem (k, doc) = false) as Hno.
    { apply Hspec, elem_of_elementals. simpl. by rewrite Hdoc. }
    assert (Chempots.is_elem elem (k, doc) = true) as Hyes.
    { apply is_elem_elemental; simpl; [by rewrite Hdoc | by exists n]. }
    congruence.
Qed.

(** X18. When [get_chempots] takes the chemical potentials from the
    cursor, the reference of every element is an elemental structure of
    the cursor for that element with the lowest enthalpy per atom, and the
    first such in the cursor among those of equal enthalpy. These
    structures, changed in place, get hull distance 0 and their enthalpy
    per atom as enthalpy per B; the other structures of the cursor stay as
    they are. *)
Theorem get_chempots_lowest (cursor cursor' : list Chempots.document)
    (elements : list string) (matched : list nat) :
  Chempots.get_chempots cursor elements = Some (matched, cursor') →
  length matched = length elements
  ∧ (∀ i elem, elements !! i = Some elem →
       ∃ k ref n,
         matched !! i = Some k ∧ cursor !! k = Some ref
         ∧ Chempots.stoichiometry ref = [(elem, n)]
         ∧ ∀ k' doc n', cursor !! k' = Some doc →
                        Chempots.stoichiometry doc = [(elem, n')] →
                        Chempots.enthalpy_per_atom ref
                        <= Chempots.enthalpy_per_atom doc
                        ∧ (Chempots.enthalpy_per_atom doc
                           == Chempots.enthalpy_per_atom ref → (k <= k')%nat))
  ∧ length cursor' = length cursor
  ∧ (∀ k doc, cursor !! k = Some doc →
       cursor' !! k
       = Some (if bool_decide (k ∈ matched) then Chempots.set_reference doc
               else doc)).
Proof.
  unfold Chempots.get_chempots. intros Hget.
  case_bool_decide as Hlen; [done |].
  injection Hget as <- <-.
  split; [by rewrite length_fmap |]. split; [| split].
  - intros i elem Hi.
    destruct (find_matches_lookup _ _ i elem Hlen Hi) as (d & Hd & Hfind).
    pose proof (find_chempot_spec cursor elem) as Hspec.
    rewrite Hfind in Hspec. destruct Hspec as (Hk & [n Hn] & Hmin).
    exists d.1, d.2, n. split; [| done].
    rewrite (list_lookup_fmap fst _ i). apply fmap_Some. exists d.
    split; [exact Hd | done].
  - apply foldl_alter_length.
  - intros k doc Hk. by apply foldl_alter_lookup.
Qed.

Lemma get_chempots_lowest_witness :
  let Li1 := Chempots.Document [("Li", 2%Z)] (-3 # 2) None None in
  let LiP := Chempots.Document [("Li", 1%Z); ("P", 1%Z)] (-5) None None in
  let Li2 := Chempots.Document [("Li", 1%Z)] (-2) None None in
  let P := Chempots.Document [("P", 4%Z)] (-4) None None in
  Chempots.get_chempots [Li1; LiP; Li2; P] ["Li"; "P"]
  = Some ([2; 3]%nat,
          [Li1; LiP; Chempots.set_reference Li2; Chempots.set_reference P])
  ∧ length [2; 3]%nat = length ["Li"; "P"].
Proof.
  intros Li1 LiP Li2 P.
  assert (Chempots.get_chempots [Li1; LiP; Li2; P] ["Li"; "P"]
          = Some ([2; 3]%nat,
                  [Li1; LiP; Chempots.set_reference Li2;
                   Chempots.set_reference P])) as Hget by reflexivity.
  split; [exact Hget |].
  exact (proj1 (get_chempots_lowest _ _ _ _ Hget)).
Defined.

(** X19. [get_chempots] on a cursor fails with its [RuntimeError] exactly
    when some element has no elemental structure in the cursor. *)
Theorem get_chempots_missing (cursor : list Chempots.document)
    (elements : list string) :
  Chempots.get_chempots cursor elements = None
  ↔ ∃ elem, elem ∈ elements
            ∧ ∀ k doc n, cursor !! k = Some doc →
                         Chempots.stoichiometry doc ≠ [(elem, n)].
Proof.
  unfold Chempots.get_chempots.
  pose proof (find_matches_length elements (Chempots.chempot_cursor cursor))
    as [Hle Hiff].
  split.
  - intros Hget. case_bool_decide as Hlen; [| done].
    destruct (decide (Exists (λ elem,
                find (Chempots.is_elem elem) (Chempots.chempot_cursor cursor)
                = None) elements)) as [Hex|Hall].
    + apply Exists_exists in Hex as (elem & Hin & Hnone).
      exists elem. split; [done |].
      pose proof (find_chempot_spec cursor elem) as Hspec.
      by rewrite Hnone in Hspec.
    + destruct Hlen. apply Hiff. intros elem Hin.
      destruct (find _ _) as [d|] eqn:Hfind; [done |].
      destruct Hall. apply Exists_exists. by exists elem.
  - intros (elem & Hin & Hnone).
    case_bool_decide as Hlen; [done |].
    destruct (proj1 Hiff Hlen elem Hin) as [d Hfind].
    pose proof (find_chempot_spec cursor elem) as Hspec.
    rewrite Hfind in Hspec. destruct Hspec as (Hk & [n Hn] & _).
    by destruct (Hnone _ _ _ Hk Hn).
Qed.

Lemma get_chempots_missing_witness :
  Chempots.get_chempots
    [Chempots.Document [("Li", 1%Z); ("P", 1%Z)] (-5) None None;
     Chempots.Document [("Li", 1%Z)] (-2) None None]
    ["Li"; "P"]
  = None.
Proof.
  apply get_chempots_missing. exists "P". split; [set_solver |].
  intros [|[|k]] doc n Hk; simplify_eq/=; done.
Defined.

End ChempotsProperties.

(** ** [_add_voltage_curve]: the staircase that is drawn *)

Lemma add_voltage_curve_loop (capacities voltages : list Q)
    (label : option string) (m : nat) :
  ∀ i0, (1 <= i0)%nat → (i0 + m = length voltages - 1)%nat →
        (length voltages - 1 <= length capacities)%nat →
  ∃ path,
    BatteryPlotting.loop capacities voltages label (length voltages) (seq i0 m)
    = (path, false)
    ∧ length path = (2 * m - 1)%nat
    ∧ (∀ c0 v, capacities !! (i0 - 1)%nat = Some c0 → voltages !! i0 = Some v →
               BatteryPlotting.chained (c0, v) path)
    ∧ (∀ k s, path !! k = Some s →
              BatteryPlotting.label s
              = if Nat.eqb i0 1 && Nat.eqb k 0 then label else None).
Proof.
  induction m as [|m IH]; intros i0 Hi0 Hm Hcap.
  { exists []. split; [done |]. split; [done |]. split; [done |].
    intros k s Hk. by rewrite lookup_nil in Hk. }
  cbn [seq BatteryPlotting.loop]. unfold BatteryPlotting.turn.
  destruct (lookup_lt_is_Some_2 capacities (i0 - 1)%nat ltac:(lia)) as [c0 Hc0].
  destruct (lookup_lt_is_Some_2 capacities i0 ltac:(lia)) as [c1 Hc1].
  destruct (lookup_lt_is_Some_2 voltages i0 ltac:(lia)) as [v Hv].
  rewrite Hc0, Hc1, Hv. cbn [mbind option_bind].
  destruct (Nat.eqb_spec i0 (length voltages - 2)) as [Hlast|Hmore];
    cbn [negb].
  - assert (m = 0%nat) as -> by lia. simpl.
    exists [BatteryPlotting.Segment (c0, v) (c1, v)
              (if Nat.eqb i0 1 then label else None)].
    split; [done |]. split; [done |]. split.
    + intros c0' v' Hc0' Hv'. simpl. by simplify_eq.
    + intros [|k] s Hk; [| by rewrite lookup_cons, lookup_nil in Hk].
      injection Hk as <-. simpl. by destruct (Nat.eqb i0 1).
  - destruct (lookup_lt_is_Some_2 voltages (i0 + 1)%nat ltac:(lia))
      as [v' Hv'].
    rewrite Hv'. cbn [mbind option_bind].
    destruct (IH (S i0) ltac:(lia) ltac:(lia) Hcap)
      as (rest & -> & Hlen & Hchain & Hlabel).
    eexists. split; [done |]. split; [simpl; lia |]. split.
    + intros c0' v0' Hc0' Hv0'. simplify_eq. simpl.
      split; [done |]. split; [done |]. apply Hchain.
      * by replace (S i0 - 1)%nat with i0 by lia.
      * by replace (S i0) with (i0 + 1)%nat by lia.
    + intros [|[|k]] s Hk; simplify_eq/=.
      * by destruct (Nat.eqb i0 1).
      * by rewrite andb_false_r.
      * rewrite andb_false_r. rewrite (Hlabel k s Hk).
        destruct i0 as [|i0']; [lia | done].
Qed.

(** X20. With a capacity for every voltage but the last,
    [_add_voltage_curve] draws without an [IndexError] one connected
    staircase of [2*(n-2) - 1] segments for [n >= 3] voltages (nothing for
    fewer): it starts at [(capacities[0], voltages[1])], every segment
    starts where the one before it stopped, and only the first segment
    carries the label. *)
Theorem add_voltage_curve_staircase (capacities voltages : list Q)
    (label : option string) :
  (length voltages - 1 <= length capacities)%nat →
  ∃ path,
    BatteryPlotting._add_voltage_curve capacities voltages label
    = (path, false)
    ∧ length path = (2 * (length voltages - 2) - 1)%nat
    ∧ (∀ c0 v, capacities !! 0%nat = Some c0 → voltages !! 1%nat = Some v →
               BatteryPlotting.chained (c0, v) path)
    ∧ (∀ k s, path !! k = Some s →
              BatteryPlotting.label s = if Nat.eqb k 0 then label else None).
Proof.
  intros Hcap. unfold BatteryPlotting._add_voltage_curve.
  destruct (decide (length voltages <= 1)%nat) as [Hshort|Hlong].
  - replace (length voltages - 1 - 1)%nat with 0%nat by lia.
    exists []. split; [done |]. split; [simpl; lia |]. split; [done |].
    intros k s Hk. by rewrite lookup_nil in Hk.
  - destruct (add_voltage_curve_loop capacities voltages label
                (length voltages - 1 - 1) 1 ltac:(lia) ltac:(lia) Hcap)
      as (path & Hloop & Hlen & Hchain & Hlabel).
    exists path. split; [done |]. split; [lia |]. split; [done |].
    intros k s Hk. by rewrite (Hlabel k s Hk).
Qed.

Lemma add_voltage_curve_staircase_witness :
  BatteryPlotting._add_voltage_curve [0; 1; 2; 3]%Q [5; 5; 3; 1; 0]%Q
    (Some "LiP")
  = ([BatteryPlotting.Segment (0, 5) (1, 5) (Some "LiP");
      BatteryPlotting.Segment (1, 5) (1, 3) None;
      BatteryPlotting.Segment (1, 3) (2, 3) None;
      BatteryPlotting.Segment (2, 3) (2, 1) None;
      BatteryPlotting.Segment (2, 1) (3, 1) None]%Q, false)
  ∧ ∃ path,
      BatteryPlotting._add_voltage_curve [0; 1; 2; 3]%Q [5; 5; 3; 1; 0]%Q
        (Some "LiP")
      = (path, false)
      ∧ length path = 5%nat.
Proof.
  split; [reflexivity |].
  destruct (add_voltage_curve_staircase [0; 1; 2; 3]%Q [5; 5; 3; 1; 0]%Q
              (Some "LiP")) as (path & Hrun & Hlen & _); [simpl; lia |].
  by exists path.
Defined.
